(** * Human3.6M sequence indexer and pose-lifting codec

    A shallow embedding of [mmpose/datasets/datasets/body3d/h36m_dataset.py]
    ([Human36mDataset]) together with a model of the [MonoPoseLifting] codec
    exercised by [tests/test_codecs/test_mono_pose_lifting.py].

    Python [int]s are [Z]; Python lists are [list]; [str] is [string] (a byte
    string, compared by character code as Python compares code points);
    exceptions are the [Err] case of [result].  The float [subset_frac] is an
    IEEE 754 binary64 value with the arithmetic of [SpecFloat] (rounding to
    nearest, ties to even; signed zeros, infinities and nan); the
    coordinates of the codec are exact rationals ([Q]). *)

From Stdlib Require Import ZArith List Bool String Ascii Lia QArith Qabs.
From Stdlib Require Import Floats.SpecFloat.
From Stdlib Require Import Sorting.Sorted Sorting.Permutation.
From Stdlib Require Import Structures.OrderedTypeEx.
Import ListNotations.

Local Open Scope Z_scope.

(** ** Exceptions *)

Inductive py_error : Type :=
| UnpackError                              (* ValueError: not enough values to unpack *)
| SliceStepZero                            (* ValueError: slice step cannot be zero *)
| RandintRange                             (* ValueError: low >= high *)
| NanToInteger                             (* ValueError: cannot convert float NaN to integer *)
| OverflowError                            (* int(inf), or an int too large for a float *)
| UnsupportedKeypoint2dSrc (src : string)  (* ValueError raised by __init__ *)
| ZeroDivisionError
| IndexError
| KeyError
| AssertionError
| TypeError
| ShapeMismatch
| MissingParameter.

Inductive result (A : Type) : Type :=
| Ok (a : A)
| Err (e : py_error).
Arguments Ok {A} a.
Arguments Err {A} e.

Definition bind {A B} (r : result A) (k : A -> result B) : result B :=
  match r with
  | Ok a => k a
  | Err e => Err e
  end.

Notation "x <- c ;; k" := (bind c (fun x => k))
  (at level 61, c at next level, right associativity).
Notation "' pat <- c ;; k" := (bind c (fun x => match x with pat => k end))
  (at level 61, pat pattern, c at next level, right associativity).

(** [[f x for x in xs]] where [f] may raise: the first exception wins. *)
Fixpoint mapM {A B} (f : A -> result B) (xs : list A) : result (list B) :=
  match xs with
  | [] => Ok []
  | x :: xs' =>
      y <- f x ;;
      ys <- mapM f xs' ;;
      Ok (y :: ys)
  end.

(** ** Python built-ins used by the indexer *)

Module Py.

(** [range(start, stop, step)] for [step <> 0]. *)
Definition range_len (start stop step : Z) : Z :=
if 0 <? step then
  (if start <? stop then (stop - start - 1) / step + 1 else 0)
else
  (if stop <? start then (start - stop - 1) / (- step) + 1 else 0).

Definition range3 (start stop step : Z) : list Z :=
map (fun k => start + Z.of_nat k * step)
    (seq 0 (Z.to_nat (range_len start stop step))).

Definition range (n : Z) : list Z := range3 0 n 1.

Definition len {A} (l : list A) : Z := Z.of_nat (List.length l).

(** [l[i]], negative [i] counting from the end. *)
Definition getitem {A} (l : list A) (i : Z) : result A :=
let j := if i <? 0 then i + len l else i in
if j <? 0 then Err IndexError
else match nth_error l (Z.to_nat j) with
     | Some x => Ok x
     | None => Err IndexError
     end.

(** Clamping of one slice bound (CPython's [PySlice_AdjustIndices]). *)
Definition adjust (n i step : Z) : Z :=
if i <? 0 then
  (if i + n <? 0 then (if step <? 0 then -1 else 0) else i + n)
else
  (if n <=? i then (if step <? 0 then n - 1 else n) else i).

(** The elements at positions [pos], [pos + step], ... ([count] of them). *)
Fixpoint take_every {A} (l : list A) (pos step : Z) (count : nat) : list A :=
match count with
| O => []
| S c =>
    match nth_error l (Z.to_nat pos) with
    | Some x => x :: take_every l (pos + step) step c
    | None => []
    end
end.

(** [l[start:stop:step]]. *)
Definition slice {A} (l : list A) (start stop step : Z) : result (list A) :=
if step =? 0 then Err SliceStepZero
else
  let a := adjust (len l) start step in
  let b := adjust (len l) stop step in
  Ok (take_every l a step (Z.to_nat (range_len a b step))).

(** [[x] * k]. *)
Definition repeat_list {A} (x : A) (k : Z) : list A := repeat x (Z.to_nat k).

(** A Python [float] is an IEEE 754 binary64 value: 53 bits of precision,
  exponents up to 1024. *)
Definition float : Type := spec_float.
Definition prec : Z := 53.
Definition emax : Z := 1024.

(** [float(n)], the conversion behind [n * x]: rounded to the nearest
  binary64 value, and an [OverflowError] when [n] is too large for one. *)
Definition float_of_int (n : Z) : result float :=
match binary_normalize prec emax n 0 false with
| S754_infinity _ => Err OverflowError
| x => Ok x
end.

(** [x * y] and [x / y] on floats. *)
Definition fmul : float -> float -> float := SFmul prec emax.

(** [n * x] for an [int] [n] and a [float] [x]. *)
Definition mul_int_float (n : Z) (x : float) : result float :=
y <- float_of_int n ;;
Ok (fmul y x).

(** The integer part of a finite float [m * 2^e], toward zero. *)
Definition trunc (s : bool) (m : positive) (e : Z) : Z :=
let a := if 0 <=? e then Z.pos m * 2 ^ e else Z.pos m / 2 ^ (- e) in
if s then - a else a.

(** [int(x)]: truncation toward zero; nan and the infinities raise. *)
Definition int_of_float (x : float) : result Z :=
match x with
| S754_nan => Err NanToInteger
| S754_infinity _ => Err OverflowError
| S754_zero _ => Ok 0
| S754_finite s m e => Ok (trunc s m e)
end.

(** The literals [1.0] and [0.5], and [a / b] for two ints (the float
  nearest to the fraction when both are below [2^53], as the literal
  [0.58] is [58 / 100]). *)
Definition float_one : float := S754_finite false 4503599627370496 (-52).
Definition float_half : float := S754_finite false 4503599627370496 (-53).

(** [s.split(sep, 1)]: at most one split, at the first [sep]. *)
Fixpoint split_first (sep : ascii) (s : string) : option (string * string) :=
match s with
| EmptyString => None
| String c rest =>
    if Ascii.eqb c sep then Some (EmptyString, rest)
    else match split_first sep rest with
         | Some (a, b) => Some (String c a, b)
         | None => None
         end
end.

Definition split1 (sep : ascii) (s : string) : list string :=
match split_first sep s with
| Some (a, b) => [a; b]
| None => [s]
end.

(** [a, b = xs] *)
Definition unpack2 {A} (xs : list A) : result (A * A) :=
match xs with
| [a; b] => Ok (a, b)
| _ => Err UnpackError
end.

(** [posixpath.basename]: what follows the last ['/']. *)
Fixpoint after_last_slash (p : string) : option string :=
match p with
| EmptyString => None
| String c rest =>
    match after_last_slash rest with
    | Some s => Some s
    | None => if Ascii.eqb c "/" then Some rest else None
    end
end.

Definition basename (p : string) : string :=
match after_last_slash p with
| Some s => s
| None => p
end.

(** [np.random.randint(low, high)]: [draw] is the raw value the
  process-global generator hands out on this call; the result lies in
  [[low, high)] and every value in that interval is reachable. *)
Definition randint (low high : Z) (draw : Z) : result Z :=
if low <? high then Ok (low + draw mod (high - low)) else Err RandintRange.

End Py.

(** ** Human36mDataset *)

Definition VideoKey : Type := string * string * string.

(** Tuple comparison [k1 < k2] / [k1 == k2], component by component. *)
Definition key_compare (k1 k2 : VideoKey) : comparison :=
  let '(s1, a1, c1) := k1 in
  let '(s2, a2, c2) := k2 in
  match String.compare s1 s2 with
  | Eq => match String.compare a1 a2 with
          | Eq => String.compare c1 c2
          | o => o
          end
  | o => o
  end.

Definition key_eqb (k1 k2 : VideoKey) : bool :=
  let '(s1, a1, c1) := k1 in
  let '(s2, a2, c2) := k2 in
  String.eqb s1 s2 && String.eqb a1 a2 && String.eqb c1 c2.

Definition _parse_h36m_imgname (imgname : string) : result VideoKey :=
  '(subj, rest) <- Py.unpack2 (Py.split1 "_" (Py.basename imgname)) ;;
  '(action, rest) <- Py.unpack2 (Py.split1 "." rest) ;;
  '(camera, rest) <- Py.unpack2 (Py.split1 "_" rest) ;;
  Ok (subj, action, camera).

(** The constructor arguments that [get_sequence_indices] reads. *)
Record config : Type := {
  seq_len : Z;
  seq_step : Z;
  multiple_target : Z;
  pad_video_seq : bool;
  causal : bool;
  subset_frac : Py.float
}.

(** [video_frames]: a [defaultdict(list)], kept in insertion order. *)
Definition frames_dict : Type := list (VideoKey * list Z).

(** [video_frames[key].append(idx)] *)
Fixpoint dict_append (vf : frames_dict) (key : VideoKey) (idx : Z) : frames_dict :=
  match vf with
  | [] => [(key, [idx])]
  | (k, l) :: rest =>
      if key_eqb k key then (k, l ++ [idx]) :: rest
      else (k, l) :: dict_append rest key idx
  end.

(** [for idx, imgname in enumerate(imgnames): ...] *)
Fixpoint group_frames (imgnames : list string) (idx : Z) (vf : frames_dict)
  : result frames_dict :=
  match imgnames with
  | [] => Ok vf
  | imgname :: rest =>
      key <- _parse_h36m_imgname imgname ;;
      group_frames rest (idx + 1) (dict_append vf key idx)
  end.

(** [sorted(video_frames.items())]: a stable sort on the key (keys of a dict
    are distinct, so the frame lists are never compared). *)
Definition key_ltb (k1 k2 : VideoKey) : bool :=
  match key_compare k1 k2 with
  | Lt => true
  | _ => false
  end.

Fixpoint insert_item (x : VideoKey * list Z) (l : frames_dict) : frames_dict :=
  match l with
  | [] => [x]
  | y :: l' =>
      if key_ltb (fst y) (fst x) then y :: insert_item x l'
      else x :: y :: l'
  end.

Fixpoint sorted_items (l : frames_dict) : frames_dict :=
  match l with
  | [] => []
  | x :: l' => insert_item x (sorted_items l')
  end.

(** Lines 190-196: the [multiple_target] branch, for one video. *)
Definition seqs_multiple_target (cfg : config) (_indices : list Z)
  : result (list (list Z)) :=
  let n_frame := Py.len _indices in
  groups <- mapM (fun i => Py.slice _indices i (i + multiple_target cfg)
                                    (seq_step cfg))
                 (Py.range3 0 n_frame (multiple_target cfg)) ;;
  Py.slice groups 0 (n_frame / multiple_target cfg) 1.

(** Lines 212-220: the padded sequence of frame [i]. *)
Definition padded_sequence (_step frames_left frames_right : Z)
    (_indices : list Z) (i : Z) : result (list Z) :=
  let n_frame := Py.len _indices in
  if _step =? 0 then Err ZeroDivisionError
  else
    let pad_left := Z.max 0 (frames_left - i / _step) in
    let pad_right := Z.max 0 (frames_right - (n_frame - 1 - i) / _step) in
    let start := Z.max (i mod _step) (i - frames_left * _step) in
    let end_ := Z.min (n_frame - (n_frame - 1 - i) mod _step)
                      (i + frames_right * _step + 1) in
    first <- Py.getitem _indices 0 ;;
    window <- Py.slice _indices start end_ _step ;;
    last <- Py.getitem _indices (-1) ;;
    Ok (Py.repeat_list first pad_left ++ window ++ Py.repeat_list last pad_right).

(** Lines 202-220: the [pad_video_seq] branch, for one video. *)
Definition seqs_padded (cfg : config) (_indices : list Z)
  : result (list (list Z)) :=
  let n_frame := Py.len _indices in
  let frames_left :=
    if causal cfg then seq_len cfg - 1 else (seq_len cfg - 1) / 2 in
  let frames_right := if causal cfg then 0 else frames_left in
  mapM (padded_sequence (seq_step cfg) frames_left frames_right _indices)
       (Py.range n_frame).

(** Lines 221-226: the sliding window, for one video. *)
Definition seqs_sliding (cfg : config) (_indices : list Z)
  : result (list (list Z)) :=
  let n_frame := Py.len _indices in
  let _len := (seq_len cfg - 1) * seq_step cfg + 1 in
  mapM (fun i => Py.slice _indices i (i + _len) (seq_step cfg))
       (Py.range3 0 (n_frame - _len + 1) 1).

Definition seqs_from_video (cfg : config) (_indices : list Z)
  : result (list (list Z)) :=
  if negb (multiple_target cfg =? 0) then seqs_multiple_target cfg _indices
  else if pad_video_seq cfg then seqs_padded cfg _indices
  else seqs_sliding cfg _indices.

(** Lines 178-226: [sequence_indices] before the subset is taken. *)
Definition build_sequence_indices (cfg : config) (imgnames : list string)
  : result (list (list Z)) :=
  video_frames <- group_frames imgnames 0 [] ;;
  per_video <- mapM (seqs_from_video cfg)
                    (map snd (sorted_items video_frames)) ;;
  Ok (List.concat per_video).

(** Line 229: [int(len(sequence_indices) * self.subset_frac)], computed in
    binary64. *)
Definition subset_size_of (total : Z) (frac : Py.float) : result Z :=
  product <- Py.mul_int_float total frac ;;
  Py.int_of_float product.

(** Lines 228-235: the random contiguous subset. *)
Definition take_subset (frac : Py.float) (sequence_indices : list (list Z))
    (draw : Z) : result (list (list Z)) :=
  subset_size <- subset_size_of (Py.len sequence_indices) frac ;;
  start <- Py.randint 0 (Py.len sequence_indices - subset_size + 1) draw ;;
  let end_ := start + subset_size in
  Py.slice sequence_indices start end_ 1.

Definition get_sequence_indices (cfg : config) (imgnames : list string)
    (draw : Z) : result (list (list Z)) :=
  sequence_indices <- build_sequence_indices cfg imgnames ;;
  take_subset (subset_frac cfg) sequence_indices draw.

Definition default_config : config :=
  {| seq_len := 1; seq_step := 1; multiple_target := 0;
     pad_video_seq := false; causal := true; subset_frac := Py.float_one |}.

(** Image names of the first [n] (at most 100) frames of one video:
    [video_00.jpg], [video_01.jpg], ... *)
Definition frame_name (video : string) (i : nat) : string :=
  (video ++ "_"
   ++ String (ascii_of_nat (48 + i / 10))
        (String (ascii_of_nat (48 + i mod 10)) ".jpg"))%string.

Definition video (name : string) (n : nat) : list string :=
  map (frame_name name) (seq 0 n).

(** [get_camera_param]: [camera_param] is [None] when the attribute was
    never set ([hasattr] fails). *)
Definition camera_table (P : Type) : Type := list ((string * string) * P).

Fixpoint dict_get {P} (t : camera_table P) (k : string * string) : result P :=
  match t with
  | [] => Err KeyError
  | ((s, c), p) :: rest =>
      if String.eqb s (fst k) && String.eqb c (snd k) then Ok p
      else dict_get rest k
  end.

Definition get_camera_param {P} (camera_param : option (camera_table P))
    (imgname : string) : result P :=
  match camera_param with
  | None => Err AssertionError
  | Some table =>
      '(subj, _, camera) <- _parse_h36m_imgname imgname ;;
      dict_get table (subj, camera)
  end.

(** *** The constructor *)

Definition SUPPORTED_keypoint_2d_src : list string :=
  ["gt"; "detection"; "pipeline"]%string.

Definition str_in (s : string) (l : list string) : bool :=
  existsb (String.eqb s) l.

Record init_args : Type := {
  arg_cfg : config;
  keypoint_2d_src : string;
  keypoint_2d_det_file : option string;
  factor_file : option string;
  data_root : option string
}.

(** What [__init__] has set on [self] when it returns; [base] is whatever
    the base-class constructor built. *)
Record dataset (B : Type) : Type := {
  self_keypoint_2d_src : string;
  self_keypoint_2d_det_file : option string;
  self_seq_step : Z;
  self_pad_video_seq : bool;
  self_factor_file : option string;
  base : B
}.
Arguments self_keypoint_2d_src {B} d.
Arguments self_keypoint_2d_det_file {B} d.
Arguments self_seq_step {B} d.
Arguments self_pad_video_seq {B} d.
Arguments self_factor_file {B} d.
Arguments base {B} d.

(** An exception leaving [__init__]: one of its own, or one that the
    base-class constructor raised. *)
Inductive init_error : Type :=
| Raised (e : py_error)
| RaisedByBase (e : py_error).

Section Constructor.

(** [mmengine.utils.is_abs], [mmengine.fileio.exists] and
    [BaseMocapDataset.__init__] live outside this file's source. *)
Variable is_abs : string -> bool.
Variable exists_ : string -> bool.
Variable B : Type.
Variable base_init : init_args -> option string -> result B.

(** A file argument is used when it is neither [None] nor empty. *)
Definition truthy (f : option string) : option string :=
  match f with
  | Some EmptyString => None
  | other => other
  end.

(** [osp.join(data_root, f)]; a [None] root is a [TypeError]. *)
Definition osp_join (root : option string) (f : string) : result string :=
  match root with
  | None => Err TypeError
  | Some r =>
      match f with
      | String "/" _ => Ok f
      | _ => Ok (if (String.eqb r "") then f
                 else if String.eqb (substring (String.length r - 1) 1 r) "/"
                      then r ++ f else r ++ "/" ++ f)%string
      end
  end.

Definition resolve (root : option string) (f : string) : result string :=
  if is_abs f then Ok f else osp_join root f.

Definition lift_own {A} (r : result A) : init_error + A :=
  match r with
  | Ok a => inr a
  | Err e => inl (Raised e)
  end.

Definition __init__ (args : init_args) : init_error + dataset B :=
  if negb (str_in (keypoint_2d_src args) SUPPORTED_keypoint_2d_src) then
    inl (Raised (UnsupportedKeypoint2dSrc (keypoint_2d_src args)))
  else
    match lift_own (match truthy (keypoint_2d_det_file args) with
                    | Some f => r <- resolve (data_root args) f ;; Ok (Some r)
                    | None => Ok None
                    end) with
    | inl e => inl e
    | inr det_file =>
        match lift_own (match truthy (factor_file args) with
                        | Some f =>
                            r <- resolve (data_root args) f ;;
                            if exists_ r then Ok (Some r)
                            else Err AssertionError
                        | None => Ok (factor_file args)
                        end) with
        | inl e => inl e
        | inr factor =>
            match base_init args factor with
            | Err e => inl (RaisedByBase e)
            | Ok b =>
                inr {| self_keypoint_2d_src := keypoint_2d_src args;
                       self_keypoint_2d_det_file := det_file;
                       self_seq_step := seq_step (arg_cfg args);
                       self_pad_video_seq := pad_video_seq (arg_cfg args);
                       self_factor_file := factor;
                       base := b |}
            end
        end
    end.

End Constructor.

(** ** The pose-lifting codec *)

Module MonoPoseLifting.

Local Open Scope Q_scope.

(** Arrays are nested lists: a pose is [[N][K][C]] (frames, joints,
    coordinates), a visibility mask is [[N][K]]. *)
Definition joint : Type := list Q.
Definition pose : Type := list (list joint).
Definition mask : Type := list (list Q).

Record options : Type := {
  zero_center : bool;
  remove_root : bool;
  save_index : bool;
  concat_vis : bool
}.

Definition default_options : options :=
  {| zero_center := true; remove_root := false;
     save_index := false; concat_vis := false |}.

Record CameraParam : Type := { cam_w : Q; cam_h : Q }.

Record EncodedLabel : Type := {
  keypoint_labels : pose;
  lifting_target_label : pose;
  lifting_target_weights : mask;
  trajectory_weights : mask;
  target_root : list joint;
  target_root_removed : option pose;
  target_root_index : option nat
}.

(** The root joint is joint 0. *)
Definition root_index : nat := 0.

Definition root_of (frame : list joint) : joint := nth root_index frame [].

Fixpoint vzip (f : Q -> Q -> Q) (a b : joint) : joint :=
  match a, b with
  | x :: a', y :: b' => f x y :: vzip f a' b'
  | _, _ => []
  end.

Definition vsub : joint -> joint -> joint := vzip Qminus.

(** [np.delete(frame, root_index)] and [np.insert(frame, root_index, r)],
    along the joint axis. *)
Definition delete_root {A} (frame : list A) : list A :=
  firstn root_index frame ++ skipn (S root_index) frame.


Fixpoint zip_with {A B C} (f : A -> B -> C) (l1 : list A) (l2 : list B)
  : list C :=
  match l1, l2 with
  | x :: l1', y :: l2' => f x y :: zip_with f l1' l2'
  | _, _ => []
  end.


Definition has_shape2 {A} (n k : nat) (a : list (list A)) : Prop :=
  List.length a = n /\ Forall (fun row => List.length row = k) a.




Section Codec.

(** The spec leaves the 2D normalisation by frame width and height, its
    inverse, and the trajectory weight to the implementation. *)
Variable norm_x norm_y : Q -> Q -> Q -> Q.
Variable denorm_x denorm_y : Q -> Q -> Q -> Q.
Variable trajectory_weight : Q -> Q.

Definition on_xy (fx fy : Q -> Q) (j : joint) : joint :=
  match j with
  | x :: y :: rest => fx x :: fy y :: rest
  | _ => j
  end.

(** Modelled from the spec: [MonoPoseLifting.encode] is not part of the
    sources at hand; this follows section 4.2, steps 1 to 4, in their
    order, and its ShapeMismatch failure mode.  The weights of step 4 are
    per joint of the label, so that they match its leading dimensions
    (section 3): where the root joint was removed from the label it has no
    weight either. *)
Definition encode (o : options) (keypoints : pose) (keypoints_visible : mask)
    (lifting_target : pose) (lifting_target_visible : mask)
    (camera : CameraParam) : result EncodedLabel :=
  if negb (Nat.eqb (List.length keypoints) (List.length keypoints_visible)
           && Nat.eqb (List.length keypoints) (List.length lifting_target)
           && Nat.eqb (List.length keypoints)
                      (List.length lifting_target_visible))
  then Err ShapeMismatch
  else
    (* 1. optional visibility channel *)
    let with_vis :=
      if concat_vis o then
        zip_with (zip_with (fun j v => j ++ [v])) keypoints keypoints_visible
      else keypoints in
    (* 2. zero-centring of the target, or 2D normalisation *)
    let roots := map root_of lifting_target in
    let centred :=
      if zero_center o then
        map (fun frame => map (fun j => vsub j (root_of frame)) frame)
            lifting_target
      else lifting_target in
    let labels2d :=
      if zero_center o then with_vis
      else map (map (on_xy (norm_x (cam_w camera) (cam_h camera))
                           (norm_y (cam_w camera) (cam_h camera))))
               with_vis in
    (* 3. optional root removal *)
    let label := if remove_root o then map delete_root centred else centred in
    let saved := remove_root o && save_index o in
    (* 4. weights, one per joint of the label *)
    let visible :=
      if remove_root o then map delete_root lifting_target_visible
      else lifting_target_visible in
    let weights :=
      map (map (fun v => if Qeq_bool v 0 then 0 else 1)) visible in
    Ok {| keypoint_labels := labels2d;
          lifting_target_label := label;
          lifting_target_weights := weights;
          trajectory_weights := map (map trajectory_weight) visible;
          target_root := roots;
          target_root_removed :=
            if saved then Some centred else None;
          target_root_index := if saved then Some root_index else None |}.


End Codec.


(** A normalisation by frame width and height, its inverse, and sample
    data in the layout of the codec's tests (one frame, two joints). *)
Definition sample_norm_x (w h x : Q) : Q := x / w * 2 - 1.
Definition sample_norm_y (w h y : Q) : Q := y / w * 2 - h / w.
Definition sample_trajectory_weight (v : Q) : Q :=
  if Qeq_bool v 0 then 0 else 1.

Definition sample_keypoints : pose := [[[500; 501]; [300; 200]]].
Definition sample_visible : mask := [[1; 0]].
Definition sample_target : pose :=
  [[[1 # 2; 1 # 4; 3 # 4]; [1 # 10; 9 # 10; 1 # 2]]].
Definition sample_camera : CameraParam := {| cam_w := 1000; cam_h := 1002 |}.

End MonoPoseLifting.

(** ** Dicts with string keys, in insertion order *)

Fixpoint dict_lookup {V} (d : list (string * V)) (k : string) : option V :=
  match d with
  | [] => None
  | (k', v) :: rest => if String.eqb k' k then Some v else dict_lookup rest k
  end.

(** [d[k] = v]: an existing key keeps its place and takes the new value. *)
Fixpoint dict_set {V} (d : list (string * V)) (k : string) (v : V)
  : list (string * V) :=
  match d with
  | [] => [(k, v)]
  | (k', v') :: rest =>
      if String.eqb k' k then (k', v) :: rest
      else (k', v') :: dict_set rest k v
  end.

(** [d.update(other)] *)
Definition dict_update {V} (d other : list (string * V)) : list (string * V) :=
  fold_left (fun d item => dict_set d (fst item) (snd item)) other d.

(** ** Human36mDataset._load_annotations *)

(** [l[i] = x] for an index inside [l]. *)
Fixpoint list_set {A} (l : list A) (i : nat) (x : A) : list A :=
  match l, i with
  | [], _ => []
  | _ :: l', O => x :: l'
  | y :: l', S i' => y :: list_set l' i' x
  end.

(** An exception leaving [_load_annotations]: one of its own, the
    [AttributeError] of an attribute [__init__] did not set, or one raised
    by the base class or by [np.load]. *)
Inductive load_error : Type :=
| Own (e : py_error)
| AttributeError
| FromBase (e : py_error)
| FromFile (e : py_error).

Section LoadAnnotations.

(** Array elements with [astype(np.float32)] on one element, the rows of the
    factor array with the same cast, the values the base class stores in an
    instance, and the entries of [image_list]. *)
Variable V : Type.
Variable f32 : V -> V.
Variable Fr : Type.
Variable f32_row : Fr -> Fr.
Variable O : Type.
Variable Img : Type.

(** A rank-3 array [[N][K][C]] with its shape. *)
Record ndarray3 : Type := {
  rows : list (list (list V));
  shape1 : Z;
  shape2 : Z
}.

Definition astype3 (a : ndarray3) : ndarray3 :=
  {| rows := map (map (map f32)) (rows a);
     shape1 := shape1 a; shape2 := shape2 a |}.

Inductive field : Type :=
| Keypoints (a : list (list (list V)))
| KeypointsVisible (a : list (list V))
| Factor (a : list Fr)
| BaseField (o : O).

Definition instance : Type := list (string * field).

(** [mmengine.fileio.exists] and [np.load] on a local path. *)
Variable exists_ : string -> bool.
Variable np_load_kpts : string -> result ndarray3.
Variable np_load_factors : string -> result (list Fr).

(** Lines 288-293. *)
Definition _load_keypoint_2d_detection (det_file : string) : result ndarray3 :=
  kpts_2d <- np_load_kpts det_file ;;
  Ok (astype3 kpts_2d).

(** Lines 251-259: what one sequence contributes in detection mode. *)
Definition detection_fields (kpts_2d : ndarray3) (frame_ids : list Z)
  : result (list (string * field)) :=
  picked <- mapM (Py.getitem (rows kpts_2d)) frame_ids ;;
  let kpt_2d := map (map (map f32)) picked in
  let keypoints := map (map (firstn 2)) kpt_2d in
  keypoints_visible <- mapM (mapM (fun joint => Py.getitem joint 2)) kpt_2d ;;
  Ok [("keypoints", Keypoints keypoints);
      ("keypoints_visible", KeypointsVisible keypoints_visible)]%string.

(** Lines 265-266: what one sequence contributes from the factor file. *)
Definition factor_fields (factors : list Fr) (frame_ids : list Z)
  : result (list (string * field)) :=
  picked <- mapM (Py.getitem factors) frame_ids ;;
  Ok [("factor", Factor (map f32_row picked))]%string.

(** [for idx, frame_ids in enumerate(self.sequence_indices):
       instance_list[idx].update(fields(frame_ids))] *)
Fixpoint update_instances (fields : list Z -> result (list (string * field)))
    (sequence_indices : list (list Z)) (idx : nat) (instance_list : list instance)
  : result (list instance) :=
  match sequence_indices with
  | [] => Ok instance_list
  | frame_ids :: rest =>
      new <- fields frame_ids ;;
      match nth_error instance_list idx with
      | None => Err IndexError
      | Some inst =>
          update_instances fields rest (S idx)
            (list_set instance_list idx (dict_update inst new))
      end
  end.

Definition own {A} (r : result A) : load_error + A :=
  match r with
  | Ok a => inr a
  | Err e => inl (Own e)
  end.

(** Lines 243-259. *)
Definition load_detection (keypoint_2d_det_file : option string) (n_3d : Z)
    (sequence_indices : list (list Z)) (instance_list : list instance)
  : load_error + list instance :=
  match keypoint_2d_det_file with
  | None => inl AttributeError
  | Some det_file =>
      if negb (exists_ det_file) then inl (Own AssertionError)
      else
        match _load_keypoint_2d_detection det_file with
        | Err e => inl (FromFile e)
        | Ok kpts_2d =>
            if negb (Py.len (rows kpts_2d) =? n_3d)
            then inl (Own AssertionError)
            else if negb (shape2 kpts_2d =? 3) then inl (Own AssertionError)
            else own (update_instances (detection_fields kpts_2d)
                                       sequence_indices 0 instance_list)
        end
  end.

(** Lines 260-266. *)
Definition load_factors (factor_file : string) (n_3d : Z)
    (sequence_indices : list (list Z)) (instance_list : list instance)
  : load_error + list instance :=
  match np_load_factors factor_file with
  | Err e => inl (FromFile e)
  | Ok loaded =>
      let factors := map f32_row loaded in
      if negb (Py.len factors =? n_3d) then inl (Own AssertionError)
      else own (update_instances (factor_fields factors)
                                 sequence_indices 0 instance_list)
  end.

(** [_load_annotations]: [base_result] is what [super()._load_annotations()]
    returns, [sequence_indices] is [self.sequence_indices], and [S_shape0]
    is [self.ann_data['S'].shape[0]] ([None] when the annotation file has no
    ['S']).  The instances are distinct dict objects. *)
Definition _load_annotations {B} (self : dataset B)
    (sequence_indices : list (list Z)) (S_shape0 : option Z)
    (base_result : result (list instance * list Img))
  : load_error + (list instance * list Img) :=
  match base_result with
  | Err e => inl (FromBase e)
  | Ok (instance_list, image_list) =>
      match S_shape0 with
      | None => inl (Own KeyError)
      | Some n_3d =>
          match (if String.eqb (self_keypoint_2d_src self) "detection"
                 then load_detection (self_keypoint_2d_det_file self) n_3d
                                     sequence_indices instance_list
                 else inr instance_list) with
          | inl e => inl e
          | inr instance_list =>
              match truthy (self_factor_file self) with
              | None => inr (instance_list, image_list)
              | Some factor_file =>
                  match load_factors factor_file n_3d sequence_indices
                                     instance_list with
                  | inl e => inl e
                  | inr instance_list => inr (instance_list, image_list)
                  end
              end
          end
      end
  end.

End LoadAnnotations.

Arguments rows {V} n.
Arguments shape1 {V} n.
Arguments shape2 {V} n.
Arguments Keypoints {V Fr O} a.
Arguments KeypointsVisible {V Fr O} a.
Arguments Factor {V Fr O} a.
Arguments BaseField {V Fr O} o.

(** Every joint of the array has [shape2] values, every frame [shape1]
    joints. *)
Definition well_shaped {V} (a : ndarray3 V) : Prop :=
  Forall (fun frame => Py.len frame = shape1 a /\
                       Forall (fun joint => Py.len joint = shape2 a) frame)
         (rows a).

(** Putting [keypoints_visible] back behind [keypoints], joint by joint. *)
Definition rejoin {V} (keypoints : list (list (list V)))
    (keypoints_visible : list (list V)) : list (list (list V)) :=
  map (fun fr => map (fun j => fst j ++ [snd j]) (combine (fst fr) (snd fr)))
      (combine keypoints keypoints_visible).

(** What the detection branch does to one instance, for the frame indices
    [ids] of its sequence. *)
Definition filled_from_detection {V Fr O} (f32 : V -> V) (kpts_2d : ndarray3 V)
    (ids : list Z) (inst inst' : instance V Fr O) : Prop :=
  exists picked kp vis,
    Forall2 (fun id frame => nth_error (rows kpts_2d) (Z.to_nat id) = Some frame)
            ids picked /\
    inst' = dict_update inst [("keypoints", Keypoints kp);
                              ("keypoints_visible", KeypointsVisible vis)]%string /\
    kp = map (map (firstn 2)) (map (map (map f32)) picked) /\
    rejoin kp vis = map (map (map f32)) picked.

(** ** tools/convert_models/mae2mmcls.py *)

Module Mae2mmcls.

Local Open Scope string_scope.

(** [old in s] on strings. *)
Fixpoint is_substring (old s : string) : bool :=
  match s with
  | EmptyString => prefix old s
  | String _ rest => prefix old s || is_substring old rest
  end.

(** [s.replace(old, new)] for a non-empty [old]: the occurrences are taken
    from left to right and do not overlap; [skip] counts the characters of
    the occurrence just replaced that are still to be dropped. *)
Fixpoint replace_from (old new s : string) (skip : nat) : string :=
  match s with
  | EmptyString => EmptyString
  | String c rest =>
      match skip with
      | S n => replace_from old new rest n
      | O =>
          if prefix old s
          then new ++ replace_from old new rest (String.length old - 1)
          else String c (replace_from old new rest 0)
      end
  end.

(** With an empty [old], [new] goes before every character and at the end. *)
Fixpoint intersperse (new s : string) : string :=
  match s with
  | EmptyString => new
  | String c rest => new ++ String c (intersperse new rest)
  end.

Definition replace (old new s : string) : string :=
  match old with
  | EmptyString => intersperse new s
  | _ => replace_from old new s 0
  end.

(** The [mapping] literal, in its insertion order. *)
Definition mapping : list (string * string) :=
  [("patch_embed.proj", "patch_embed.projection");
   ("mlp.fc1", "ffn.layers.0.0");
   ("norm.", "ln1.");
   ("mlp.fc2", "ffn.layers.1");
   ("norm1", "ln1");
   ("norm2", "ln2");
   ("blocks", "layers")].

(** Lines 32-34: the inner loop over [mapping.items()]. *)
Definition rename_with (rules : list (string * string)) (k : string) : string :=
  fold_left (fun k rule =>
               if is_substring (fst rule) k
               then replace (fst rule) (snd rule) k else k)
            rules k.

Definition rename : string -> string := rename_with mapping.

Section Convert.

(** The tensors of a checkpoint. *)
Variable T : Type.

(** A value of the loaded checkpoint: a dict of tensors, or anything else. *)
Inductive obj : Type :=
| Dict (d : list (string * T))
| Other (t : T).

Inductive conv_error : Type :=
| KeyError_model      (* weight["model"] is missing *)
| AttributeError_items (* weight["model"] has no [items] *).

(** Lines 30-36: one turn of the outer loop, on [temp] and the printed
    lines. *)
Definition convert_step (st : list (string * T) * list string)
    (item : string * T) : list (string * T) * list string :=
  let '(temp, out) := st in
  let '(k, v) := item in
  (dict_set temp (rename k) v, app out [k; "=> " ++ rename k]).

Record converted : Type := {
  meta : list (string * T);
  state_dict : list (string * T)
}.

(** [convert_weights]: the result dict and what was printed. *)
Definition convert_weights (weight : list (string * obj))
  : conv_error + (converted * list string) :=
  match dict_lookup weight "model" with
  | None => inl KeyError_model
  | Some (Other _) => inl AttributeError_items
  | Some (Dict model) =>
      let '(temp, out) := fold_left convert_step model ([], []) in
      inr ({| meta := []; state_dict := temp |}, out)
  end.

End Convert.

Arguments Dict {T} d.
Arguments Other {T} t.
Arguments convert_weights {T} weight.
Arguments convert_step {T} st item.
Arguments meta {T} c.
Arguments state_dict {T} c.

End Mae2mmcls.

(** ** Vocabulary of the properties *)

(** [s] has an occurrence of the character [c]. *)
Definition contains (c : ascii) (s : string) : Prop :=
  exists a b, s = (a ++ String c b)%string.

(** The delimiters of [{subject}_{action}.{camera}_{frame}.ext] occur in
    this order. *)
Definition delimited (b : string) : Prop :=
  exists s a c r,
    b = (s ++ String "_" (a ++ String "." (c ++ String "_" r)))%string.

(** The elements of a slice, for a nonzero step. *)
Definition slice_elems {A} (l : list A) (start stop step : Z) : list A :=
  let a := Py.adjust (Py.len l) start step in
  let b := Py.adjust (Py.len l) stop step in
  Py.take_every l a step (Z.to_nat (Py.range_len a b step)).

Definition zsum (l : list Z) : Z := fold_right Z.add 0 l.

(** The number of windows that fit in a video of [n] frames. *)
Definition window_count (cfg : config) (n : Z) : Z :=
  Z.max 0 (n - ((seq_len cfg - 1) * seq_step cfg + 1) + 1).

(** Frame [idx] of the table is a frame of the video [key]. *)
Definition frame_of (imgnames : list string) (key : VideoKey) (idx : Z) : Prop :=
  0 <= idx /\
  exists name, nth_error imgnames (Z.to_nat idx) = Some name /\
               _parse_h36m_imgname name = Ok key.

(** A frame list of one video: strictly increasing table indices that all
    belong to [key]. *)
Definition video_of (imgnames : list string) (key : VideoKey) (l : list Z)
  : Prop :=
  StronglySorted Z.lt l /\ Forall (frame_of imgnames key) l.

(** An emitted sequence of frames of one video, in temporal order. *)
Definition within_video (imgnames : list string) (s : list Z) : Prop :=
  StronglySorted Z.le s /\
  exists key, Forall (frame_of imgnames key) s.

(** The invariant of the grouping loop: every entry is a video, with
    indices below [bound]. *)
Definition grouped (imgnames : list string) (bound : Z) (vf : frames_dict)
  : Prop :=
  Forall (fun item => video_of imgnames (fst item) (snd item) /\
                      Forall (fun idx => idx < bound) (snd item)) vf.



Definition half_config : config :=
  {| seq_len := 1; seq_step := 1; multiple_target := 0;
     pad_video_seq := false; causal := true; subset_frac := Py.float_half |}.


(** [old] occurs in [s]. *)
Definition occurs (old s : string) : Prop :=
  exists a b, s = (a ++ old ++ b)%string.

(** [k1 < k2] on video keys. *)
Definition key_lt (k1 k2 : VideoKey) : Prop := key_compare k1 k2 = Lt.

(** Nearest valid position of a video of [n] frames. *)
Definition clamp (n p : Z) : Z := Z.max 0 (Z.min (n - 1) p).

(** * Properties *)

(** ** Image-name parsing *)

Section Parsing.

Local Open Scope string_scope.

Lemma append_assoc (a b c : string) : (a ++ b) ++ c = a ++ (b ++ c).
Proof. induction a as [|x a IH]; simpl; [reflexivity | now rewrite IH]. Qed.

Lemma not_contains_empty c : ~ contains c "".
Proof. intros [[|x a] [b H]]; discriminate H. Qed.

Lemma not_contains_cons c x s :
  x <> c -> ~ contains c s -> ~ contains c (String x s).
Proof.
  intros Hx Hs [[|y a] [b H]]; simpl in H; injection H as H1 H2.
  - now apply Hx.
  - apply Hs. now exists a, b.
Qed.

Lemma split_first_some sep s a b :
  Py.split_first sep s = Some (a, b) <->
  s = a ++ String sep b /\ ~ contains sep a.
Proof.
  split.
  - revert a b. induction s as [|x s IH]; intros a b H; simpl in H.
    + discriminate.
    + destruct (Ascii.eqb_spec x sep) as [->|Hne].
      * injection H as <- <-. split; [reflexivity | apply not_contains_empty].
      * destruct (Py.split_first sep s) as [[a' b']|]; [|discriminate].
        injection H as <- <-.
        destruct (IH a' b' eq_refl) as [-> Hn].
        split; [reflexivity | now apply not_contains_cons].
  - intros [-> Hn]. induction a as [|x a IH]; simpl.
    + now rewrite Ascii.eqb_refl.
    + destruct (Ascii.eqb_spec x sep) as [->|Hne].
      * exfalso. apply Hn. now exists "", a.
      * rewrite IH; [reflexivity|].
        intros [u [v ->]]. apply Hn. now exists (String x u), v.
Qed.

Lemma split_first_none sep s :
  Py.split_first sep s = None <-> ~ contains sep s.
Proof.
  split.
  - induction s as [|x s IH]; intros H; simpl in H.
    + apply not_contains_empty.
    + destruct (Ascii.eqb_spec x sep) as [->|Hne]; [discriminate|].
      destruct (Py.split_first sep s) as [[a' b']|]; [discriminate|].
      apply not_contains_cons; auto.
  - intros Hn.
    destruct (Py.split_first sep s) as [[a b]|] eqn:E; [|reflexivity].
    apply split_first_some in E as [-> _].
    exfalso. apply Hn. now exists a, b.
Qed.

(** Splitting at the first separator leaves every later occurrence, and
    what follows it, in the remainder. *)
Lemma split_first_suffix sep x y :
  exists a z, Py.split_first sep (x ++ String sep y) = Some (a, z ++ y).
Proof.
  induction x as [|c x IH]; simpl.
  - rewrite Ascii.eqb_refl. now exists "", "".
  - destruct (Ascii.eqb_spec c sep) as [->|Hne].
    + exists "", (x ++ String sep ""). simpl.
      rewrite append_assoc. reflexivity.
    + destruct IH as [a [z ->]]. now exists (String c a), z.
Qed.

Lemma parse_delimited imgname :
  delimited (Py.basename imgname) ->
  exists key, _parse_h36m_imgname imgname = Ok key.
Proof.
  intros (s & a & c & r & E). unfold _parse_h36m_imgname, Py.split1.
  rewrite E.
  destruct (split_first_suffix "_" s (a ++ String "." (c ++ String "_" r)))
    as [subj [z1 ->]]. simpl.
  rewrite <- append_assoc.
  destruct (split_first_suffix "." (z1 ++ a) (c ++ String "_" r))
    as [action [z2 ->]]. simpl.
  rewrite <- append_assoc.
  destruct (split_first_suffix "_" (z2 ++ c) r) as [camera [z3 ->]]. simpl.
  now exists (subj, action, camera).
Qed.

Lemma parse_ok_iff imgname subj action camera :
  _parse_h36m_imgname imgname = Ok (subj, action, camera) <->
  exists rest,
    Py.basename imgname
    = subj ++ String "_" (action ++ String "." (camera ++ String "_" rest))
    /\ ~ contains "_" subj /\ ~ contains "." action /\ ~ contains "_" camera.
Proof.
  unfold _parse_h36m_imgname, Py.split1. split.
  - destruct (Py.split_first "_" (Py.basename imgname)) as [[s r1]|] eqn:E1;
      simpl; [|discriminate].
    destruct (Py.split_first "." r1) as [[a r2]|] eqn:E2; simpl; [|discriminate].
    destruct (Py.split_first "_" r2) as [[c r3]|] eqn:E3; simpl; [|discriminate].
    intros H. injection H as <- <- <-.
    apply split_first_some in E1 as [-> H1].
    apply split_first_some in E2 as [-> H2].
    apply split_first_some in E3 as [-> H3].
    now exists r3.
  - intros (rest & E & H1 & H2 & H3). rewrite E.
    rewrite (proj2 (split_first_some "_" _ subj _) (conj eq_refl H1)). simpl.
    rewrite (proj2 (split_first_some "." _ action _) (conj eq_refl H2)). simpl.
    rewrite (proj2 (split_first_some "_" _ camera _) (conj eq_refl H3)). simpl.
    reflexivity.
Qed.

Lemma parse_not_delimited imgname :
  ~ delimited (Py.basename imgname) ->
  _parse_h36m_imgname imgname = Err UnpackError.
Proof.
  intros Hn. unfold _parse_h36m_imgname, Py.split1.
  destruct (Py.split_first "_" (Py.basename imgname)) as [[s r1]|] eqn:E1;
    simpl; [|reflexivity].
  destruct (Py.split_first "." r1) as [[a r2]|] eqn:E2; simpl; [|reflexivity].
  destruct (Py.split_first "_" r2) as [[c r3]|] eqn:E3; simpl; [|reflexivity].
  exfalso. apply Hn.
  apply split_first_some in E1 as [-> _].
  apply split_first_some in E2 as [-> _].
  apply split_first_some in E3 as [-> _].
  now exists s, a, c, r3.
Qed.

End Parsing.

(** ** The error monad and list comprehensions *)

Lemma mapM_pure {A B} (g : A -> B) (xs : list A) :
  mapM (fun x => Ok (g x)) xs = Ok (map g xs).
Proof.
  induction xs as [|x xs IH]; simpl; [reflexivity|].
  now rewrite IH.
Qed.

Lemma mapM_ext {A B} (f g : A -> result B) (xs : list A) :
  (forall x, In x xs -> f x = g x) -> mapM f xs = mapM g xs.
Proof.
  induction xs as [|x xs IH]; simpl; intros H; [reflexivity|].
  rewrite (H x (or_introl eq_refl)), IH; auto.
Qed.

Lemma mapM_ok {A B} (f : A -> result B) (xs : list A) (ys : list B) :
  mapM f xs = Ok ys -> Forall2 (fun x y => f x = Ok y) xs ys.
Proof.
  revert ys. induction xs as [|x xs IH]; simpl; intros ys H.
  - injection H as <-. constructor.
  - destruct (f x) as [y|e] eqn:Ef; simpl in H; [|discriminate].
    destruct (mapM f xs) as [ys'|e]; simpl in H; [|discriminate].
    injection H as <-. constructor; auto.
Qed.

Lemma mapM_err {A B} (f : A -> result B) (xs : list A) (err : py_error) :
  (forall x e, f x = Err e -> e = err) ->
  forall e, mapM f xs = Err e -> e = err.
Proof.
  intros Hf. induction xs as [|x xs IH]; simpl; intros e H; [discriminate|].
  destruct (f x) as [y|e'] eqn:Ef; simpl in H.
  - destruct (mapM f xs) as [ys'|e'']; simpl in H; [discriminate|].
    injection H as <-. now apply IH.
  - injection H as <-. eauto.
Qed.

Lemma mapM_total {A B} (f : A -> result B) (P : A -> Prop) xs :
  (forall x, P x -> exists y, f x = Ok y) ->
  Forall P xs -> exists ys, mapM f xs = Ok ys.
Proof.
  intros Hf H. induction H as [|x xs Hx _ [ys IH]]; simpl.
  - now exists [].
  - destruct (Hf x Hx) as [y ->]. rewrite IH. simpl. now exists (y :: ys).
Qed.

(** ** Slices and ranges *)

Lemma range_len_nonneg start stop step : 0 <= Py.range_len start stop step.
Proof.
  unfold Py.range_len.
  destruct (0 <? step) eqn:Es.
  - apply Z.ltb_lt in Es. destruct (start <? stop) eqn:E; [|lia].
    apply Z.ltb_lt in E. assert (0 <= (stop - start - 1) / step); [|lia].
    apply Z.div_pos; lia.
  - apply Z.ltb_ge in Es. destruct (stop <? start) eqn:E; [|lia].
    apply Z.ltb_lt in E. destruct (Z.eq_dec step 0) as [->|Hs].
    + simpl. rewrite Z.div_0_r. lia.
    + assert (0 <= (start - stop - 1) / (- step)); [|lia].
      apply Z.div_pos; lia.
Qed.

Lemma range3_length start stop step :
  Py.len (Py.range3 start stop step) = Py.range_len start stop step.
Proof.
  unfold Py.range3, Py.len. rewrite length_map, length_seq.
  apply Z2Nat.id, range_len_nonneg.
Qed.

(** [range(0, n)] has [max(0, n)] elements. *)
Lemma range_len_unit n : Py.range_len 0 n 1 = Z.max 0 n.
Proof.
  unfold Py.range_len. change (0 <? 1) with true. cbv iota.
  destruct (0 <? n) eqn:E.
  - apply Z.ltb_lt in E. rewrite Z.div_1_r. lia.
  - apply Z.ltb_ge in E. lia.
Qed.

Lemma range3_In start stop step i :
  0 < step -> In i (Py.range3 start stop step) ->
  start <= i < stop /\ exists k, 0 <= k /\ i = start + k * step.
Proof.
  intros Hs Hin. unfold Py.range3 in Hin.
  apply in_map_iff in Hin as (k & <- & Hk). apply in_seq in Hk.
  unfold Py.range_len in Hk.
  destruct (0 <? step) eqn:Es; [|apply Z.ltb_ge in Es; lia].
  destruct (start <? stop) eqn:E; [|simpl in Hk; lia].
  apply Z.ltb_lt in E.
  assert (Hq : Z.of_nat k <= (stop - start - 1) / step) by lia.
  assert (Hm : step * ((stop - start - 1) / step) <= stop - start - 1)
    by (apply Z.mul_div_le; lia).
  split; [nia|]. exists (Z.of_nat k). lia.
Qed.

Section Slices.

Context {A : Type}.
Implicit Types (l : list A).

Lemma slice_nonzero l start stop step :
  step <> 0 -> Py.slice l start stop step = Ok (slice_elems l start stop step).
Proof.
  intros H. unfold Py.slice. apply Z.eqb_neq in H. now rewrite H.
Qed.

Lemma slice_ok l start stop step r :
  Py.slice l start stop step = Ok r ->
  step <> 0 /\ r = slice_elems l start stop step.
Proof.
  unfold Py.slice. destruct (step =? 0) eqn:E; [discriminate|].
  apply Z.eqb_neq in E. intros H. injection H as <-. auto.
Qed.

Lemma slice_err l start stop step e :
  Py.slice l start stop step = Err e -> step = 0 /\ e = SliceStepZero.
Proof.
  unfold Py.slice. destruct (step =? 0) eqn:E; [|discriminate].
  apply Z.eqb_eq in E. intros H. injection H as <-. auto.
Qed.

(** Every element of a slice is an element of the list. *)
Lemma take_every_incl l pos step count :
  incl (Py.take_every l pos step count) l.
Proof.
  revert pos. induction count as [|c IH]; intros pos x; simpl.
  - intros [].
  - destruct (nth_error l (Z.to_nat pos)) as [y|] eqn:E; [|intros []].
    intros [<-|H]; [eapply nth_error_In; eauto | eapply IH; eauto].
Qed.

Lemma slice_elems_incl l start stop step :
  incl (slice_elems l start stop step) l.
Proof. apply take_every_incl. Qed.

Lemma take_every_length l pos step count :
  0 <= pos -> 0 < step ->
  pos + (Z.of_nat count - 1) * step < Py.len l ->
  List.length (Py.take_every l pos step count) = count.
Proof.
  revert pos. induction count as [|c IH]; intros pos Hp Hs Hb; simpl.
  - reflexivity.
  - assert (Hlt : (Z.to_nat pos < List.length l)%nat)
      by (unfold Py.len in Hb; nia).
    destruct (nth_error l (Z.to_nat pos)) as [x|] eqn:E.
    + simpl. f_equal. apply IH; lia.
    + apply nth_error_None in E. lia.
Qed.

Lemma take_every_nth l pos step count j :
  0 <= pos -> 0 < step ->
  pos + (Z.of_nat count - 1) * step < Py.len l ->
  (j < count)%nat ->
  nth_error (Py.take_every l pos step count) j
  = nth_error l (Z.to_nat (pos + Z.of_nat j * step)).
Proof.
  revert pos j. induction count as [|c IH]; intros pos j Hp Hs Hb Hj; [lia|].
  simpl.
  assert (Hlt : (Z.to_nat pos < List.length l)%nat)
    by (unfold Py.len in Hb; nia).
  destruct (nth_error l (Z.to_nat pos)) as [x|] eqn:E.
  - destruct j as [|j].
    + simpl. now rewrite Z.add_0_r.
    + cbn [nth_error]. rewrite IH by lia. f_equal. lia.
  - apply nth_error_None in E. lia.
Qed.

(** For a positive step a non-negative bound is clamped to the length. *)
Lemma adjust_nonneg n i step :
  0 <= n -> 0 <= i -> 0 < step -> Py.adjust n i step = Z.min i n.
Proof.
  intros Hn Hi Hs. unfold Py.adjust.
  destruct (i <? 0) eqn:E1; [apply Z.ltb_lt in E1; lia|].
  destruct (step <? 0) eqn:E2; [apply Z.ltb_lt in E2; lia|].
  destruct (n <=? i) eqn:E3;
    [apply Z.leb_le in E3 | apply Z.leb_gt in E3]; lia.
Qed.

Lemma len_nonneg l : 0 <= Py.len l.
Proof. unfold Py.len. lia. Qed.

(** The last position visited by a forward slice is below its stop. *)
Lemma range_len_last a b step :
  0 < step -> a + (Py.range_len a b step - 1) * step < Z.max b (a + 1 - step).
Proof.
  intros Hs. unfold Py.range_len.
  destruct (0 <? step) eqn:Es; [|apply Z.ltb_ge in Es; lia].
  destruct (a <? b) eqn:E; [apply Z.ltb_lt in E | apply Z.ltb_ge in E].
  - assert (step * ((b - a - 1) / step) <= b - a - 1)
      by (apply Z.mul_div_le; lia).
    nia.
  - lia.
Qed.

Lemma slice_elems_forward l start stop step :
  0 <= start -> 0 <= stop -> 0 < step ->
  let a := Z.min start (Py.len l) in
  let b := Z.min stop (Py.len l) in
  let count := Z.to_nat (Py.range_len a b step) in
  slice_elems l start stop step = Py.take_every l a step count /\
  List.length (slice_elems l start stop step) = count /\
  forall j, (j < count)%nat ->
    nth_error (slice_elems l start stop step) j
    = nth_error l (Z.to_nat (a + Z.of_nat j * step)).
Proof.
  intros H1 H2 Hs a b count. unfold slice_elems.
  pose proof (len_nonneg l) as Hn.
  rewrite !adjust_nonneg by lia. fold a b count.
  assert (Hb : a + (Z.of_nat count - 1) * step < Py.len l \/ count = O).
  { pose proof (range_len_last a b step Hs) as Hl.
    pose proof (range_len_nonneg a b step) as Hr.
    unfold count. rewrite Z2Nat.id by lia.
    destruct (Z.eq_dec (Py.range_len a b step) 0) as [E|E].
    - right. now rewrite E.
    - left. unfold Py.range_len in *.
      destruct (0 <? step); destruct (a <? b) eqn:Eab; try lia. }
  split; [reflexivity|]. destruct Hb as [Hb | ->].
  - split; [apply take_every_length; lia|].
    intros j Hj. apply take_every_nth; lia.
  - split; [reflexivity | intros j Hj; lia].
Qed.

End Slices.

(** ** Counting the sequences of a table *)

Lemma len_concat {A} (ls : list (list A)) :
  Py.len (List.concat ls) = zsum (map Py.len ls).
Proof.
  unfold Py.len. induction ls as [|l ls IH]; simpl; [reflexivity|].
  rewrite length_app, Nat2Z.inj_add, IH. reflexivity.
Qed.

Lemma Forall2_map_len {A B} (f : A -> result (list B)) (g : A -> Z) xs ys :
  (forall x y, f x = Ok y -> Py.len y = g x) ->
  Forall2 (fun x y => f x = Ok y) xs ys ->
  map Py.len ys = map g xs.
Proof.
  intros Hf H. induction H as [|x y xs ys Hxy _ IH]; simpl; [reflexivity|].
  rewrite IH, (Hf x y Hxy). reflexivity.
Qed.

Lemma insert_item_perm x l : Permutation (insert_item x l) (x :: l).
Proof.
  induction l as [|y l IH]; simpl; [reflexivity|].
  destruct (key_ltb (fst y) (fst x)); [|reflexivity].
  rewrite IH. apply perm_swap.
Qed.

Lemma sorted_items_perm l : Permutation (sorted_items l) l.
Proof.
  induction l as [|x l IH]; simpl; [reflexivity|].
  rewrite insert_item_perm. now constructor.
Qed.

Lemma zsum_perm l1 l2 : Permutation l1 l2 -> zsum l1 = zsum l2.
Proof.
  induction 1; simpl; lia.
Qed.

Lemma seqs_sliding_eq cfg _indices :
  seq_step cfg <> 0 ->
  seqs_sliding cfg _indices
  = Ok (map (fun i => slice_elems _indices i
                        (i + ((seq_len cfg - 1) * seq_step cfg + 1))
                        (seq_step cfg))
            (Py.range3 0 (Py.len _indices
                          - ((seq_len cfg - 1) * seq_step cfg + 1) + 1) 1)).
Proof.
  intros Hs. unfold seqs_sliding. rewrite <- mapM_pure.
  apply mapM_ext. intros i _. now apply slice_nonzero.
Qed.

Lemma seqs_sliding_count cfg _indices :
  seq_step cfg <> 0 ->
  exists seqs, seqs_sliding cfg _indices = Ok seqs /\
               Py.len seqs = window_count cfg (Py.len _indices).
Proof.
  intros Hs. eexists. split; [now apply seqs_sliding_eq|].
  unfold Py.len at 1. rewrite length_map. fold (Py.len (Py.range3 0
    (Py.len _indices - ((seq_len cfg - 1) * seq_step cfg + 1) + 1) 1)).
  rewrite range3_length, range_len_unit. reflexivity.
Qed.

Lemma seqs_from_video_sliding cfg _indices :
  multiple_target cfg = 0 -> pad_video_seq cfg = false ->
  seqs_from_video cfg _indices = seqs_sliding cfg _indices.
Proof.
  intros Hm Hp. unfold seqs_from_video. now rewrite Hm, Hp.
Qed.

Lemma build_ok cfg imgnames all :
  build_sequence_indices cfg imgnames = Ok all ->
  exists video_frames per_video,
    group_frames imgnames 0 [] = Ok video_frames /\
    Forall2 (fun v seqs => seqs_from_video cfg v = Ok seqs)
            (map snd (sorted_items video_frames)) per_video /\
    all = List.concat per_video.
Proof.
  unfold build_sequence_indices. intros H.
  destruct (group_frames imgnames 0 []) as [vf|e]; simpl in H; [|discriminate].
  destruct (mapM (seqs_from_video cfg) (map snd (sorted_items vf)))
    as [pv|e] eqn:E; simpl in H; [|discriminate].
  injection H as <-. exists vf, pv. split; [reflexivity|].
  split; [now apply mapM_ok | reflexivity].
Qed.

(** ** Binary64 arithmetic of the subset size *)

Section Binary64.

Import Py.

(** Rounding leaves a mantissa alone that already fits the format. *)
Lemma round_canonical s m e :
  canonical_mantissa prec emax m e = true -> e <= emax - prec ->
  binary_round_aux prec emax s (Z.pos m) e loc_Exact = S754_finite s m e.
Proof.
  intros Hc He. unfold canonical_mantissa in Hc. apply Z.eqb_eq in Hc.
  unfold binary_round_aux, shr_fexp. cbn [Zdigits2 shr_record_of_loc].
  rewrite Hc, Z.sub_diag. cbn [shr round_nearest_even shr_m loc_of_shr_record].
  cbn [Zdigits2 shr_record_of_loc].
  rewrite Hc, Z.sub_diag. cbn [shr shr_m].
  apply Z.leb_le in He. now rewrite He.
Qed.

Lemma digits2_shift p k :
  Z.pos (digits2_pos (Pos.iter xO p k)) = Z.pos (digits2_pos p) + Z.pos k.
Proof.
  induction k as [|k IH] using Pos.peano_ind.
  - simpl. lia.
  - rewrite Pos.iter_succ. cbn [digits2_pos]. lia.
Qed.

Lemma iter_pos_iter {A} (f : A -> A) n x : iter_pos f n x = Pos.iter f x n.
Proof.
  revert x. induction n as [n IH|n IH|]; intros x; simpl.
  - rewrite !IH. now rewrite <- !Pos.iter_swap.
  - now rewrite !IH.
  - reflexivity.
Qed.

(** Shifting right what was shifted left loses nothing. *)
Lemma shr_shift (m : positive) k :
  iter_pos shr_1 k {| shr_m := Z.pos (Pos.iter xO m k);
                      shr_r := false; shr_s := false |}
  = {| shr_m := Z.pos m; shr_r := false; shr_s := false |}.
Proof.
  rewrite iter_pos_iter.
  induction k as [|k IH] using Pos.peano_ind.
  - reflexivity.
  - rewrite Pos.iter_succ_r, Pos.iter_succ. exact IH.
Qed.

Lemma mul_pow2 m k : (m * Pos.iter xO 1 k)%positive = Pos.iter xO m k.
Proof.
  induction k as [|k IH] using Pos.peano_ind.
  - simpl. lia.
  - rewrite !Pos.iter_succ. rewrite <- IH. lia.
Qed.

(** [x * 1.0 = x] for every finite binary64 value [x]. *)
Lemma fmul_one s m e :
  bounded prec emax m e = true ->
  fmul (S754_finite s m e) float_one = S754_finite s m e.
Proof.
  intros Hb. unfold bounded in Hb. apply andb_prop in Hb as [Hc He].
  apply Z.leb_le in He.
  unfold fmul, float_one, SFmul. rewrite xorb_false_r.
  change 4503599627370496%positive with (Pos.iter xO 1%positive 52).
  rewrite mul_pow2.
  pose proof Hc as Hc'. unfold canonical_mantissa in Hc'.
  apply Z.eqb_eq in Hc'.
  unfold binary_round_aux, shr_fexp. cbn [Zdigits2 shr_record_of_loc].
  rewrite digits2_shift.
  replace (Z.pos (digits2_pos m) + 52 + (e + -52))
    with (Z.pos (digits2_pos m) + e) by lia.
  rewrite Hc'. replace (e - (e + -52)) with 52 by lia.
  cbn [shr]. rewrite shr_shift.
  cbn [round_nearest_even shr_m loc_of_shr_record Zdigits2 shr_record_of_loc].
  replace (e + -52 + 52) with e by lia.
  rewrite Hc', Z.sub_diag. cbn [shr shr_m].
  apply Z.leb_le in He. now rewrite He.
Qed.

Lemma digits2_lower p : 2 ^ (Z.pos (digits2_pos p) - 1) <= Z.pos p.
Proof.
  induction p as [p IH|p IH|]; cbn [digits2_pos].
  - rewrite Pos2Z.inj_succ.
    replace (Z.succ (Z.pos (digits2_pos p)) - 1)
      with (Z.succ (Z.pos (digits2_pos p) - 1)) by lia.
    rewrite Z.pow_succ_r by lia. lia.
  - rewrite Pos2Z.inj_succ.
    replace (Z.succ (Z.pos (digits2_pos p)) - 1)
      with (Z.succ (Z.pos (digits2_pos p) - 1)) by lia.
    rewrite Z.pow_succ_r by lia. lia.
  - simpl. lia.
Qed.

Lemma iter_xO_val p k : Z.pos (Pos.iter xO p k) = Z.pos p * 2 ^ Z.pos k.
Proof.
  induction k as [|k IH] using Pos.peano_ind.
  - simpl. lia.
  - rewrite Pos.iter_succ, Pos2Z.inj_succ, Z.pow_succ_r by lia.
    rewrite Pos2Z.inj_xO, IH. lia.
Qed.

(** An int below [2^53] is converted exactly. *)
Lemma float_of_int_exact p :
  Z.pos p < 2 ^ 53 ->
  exists m e,
    float_of_int (Z.pos p) = Ok (S754_finite false m e) /\
    bounded prec emax m e = true /\
    e <= 0 /\ Z.pos m = Z.pos p * 2 ^ (- e).
Proof.
  intros Hp. pose proof (digits2_lower p) as Hd.
  assert (Hd53 : Z.pos (digits2_pos p) <= 53).
  { destruct (Z.le_gt_cases (Z.pos (digits2_pos p)) 53) as [H|H]; [exact H|].
    assert (2 ^ 53 <= 2 ^ (Z.pos (digits2_pos p) - 1))
      by (apply Z.pow_le_mono_r; lia).
    lia. }
  unfold float_of_int, binary_normalize, binary_round.
  assert (Hf : fexp prec emax (Z.pos (digits2_pos p) + 0)
               = Z.pos (digits2_pos p) - 53).
  { unfold fexp, emin, prec, emax. lia. }
  rewrite Hf. unfold shl_align. rewrite Z.sub_0_r.
  destruct (Z.pos (digits2_pos p) - 53) as [|q|q] eqn:Eq; [| lia |].
  - rewrite round_canonical.
    + exists p, 0. repeat split; try lia.
      unfold bounded, canonical_mantissa. rewrite Z.add_0_r.
      unfold fexp, emin, prec, emax.
      apply andb_true_intro. split; [apply Z.eqb_eq; lia | reflexivity].
    + unfold canonical_mantissa, fexp, emin, prec, emax. apply Z.eqb_eq. lia.
    + unfold prec, emax. lia.
  - assert (Hc : canonical_mantissa prec emax (Pos.iter xO p q) (Z.neg q)
                 = true).
    { unfold canonical_mantissa. rewrite digits2_shift.
      unfold fexp, emin, prec, emax. apply Z.eqb_eq. lia. }
    rewrite round_canonical; [|exact Hc|unfold prec, emax; lia].
    exists (Pos.iter xO p q), (Z.neg q). repeat split; try lia.
    + unfold bounded. rewrite Hc. reflexivity.
    + rewrite iter_xO_val. reflexivity.
Qed.

End Binary64.

(** [int(total * 1.0) = total] while [total] is below [2^53], where binary64
    holds every integer. *)
Lemma subset_size_one (total : Z) :
  0 <= total < 2 ^ 53 -> subset_size_of total Py.float_one = Ok total.
Proof.
  intros [H0 H1]. unfold subset_size_of, Py.mul_int_float.
  destruct total as [|p|p]; [reflexivity| |lia].
  destruct (float_of_int_exact p H1) as (m & e & -> & Hb & He & Hm).
  cbn [bind]. rewrite fmul_one by exact Hb.
  unfold Py.int_of_float, Py.trunc. f_equal.
  destruct (0 <=? e) eqn:E.
  - apply Z.leb_le in E. replace e with 0 in * by lia. simpl in *. lia.
  - rewrite Hm. apply Z.div_mul. apply Z.pow_nonzero; lia.
Qed.


Lemma take_every_all {A} (l : list A) (pre : list A) :
  Py.take_every (pre ++ l) (Py.len pre) 1 (List.length l) = l.
Proof.
  revert pre. induction l as [|x l IH]; intros pre; simpl; [reflexivity|].
  unfold Py.len. rewrite Nat2Z.id.
  rewrite nth_error_app2, Nat.sub_diag by lia. simpl. f_equal.
  specialize (IH (pre ++ [x])). rewrite <- app_assoc in IH. simpl in IH.
  unfold Py.len in IH. rewrite length_app, Nat2Z.inj_add in IH. simpl in IH.
  exact IH.
Qed.

Lemma slice_whole {A} (l : list A) : Py.slice l 0 (Py.len l) 1 = Ok l.
Proof.
  rewrite slice_nonzero by discriminate. f_equal.
  pose proof (len_nonneg l) as Hn.
  destruct (slice_elems_forward l 0 (Py.len l) 1) as [-> _]; try lia.
  rewrite Z.min_l, Z.min_id by lia.
  rewrite <- range3_length. unfold Py.range3, Py.len at 1.
  rewrite length_map, length_seq, Nat2Z.id.
  fold (Py.range_len 0 (Py.len l) 1). rewrite range_len_unit.
  rewrite Z.max_r by lia. unfold Py.len. rewrite Nat2Z.id.
  exact (take_every_all l []).
Qed.

(** With [subset_frac = 1.0] the subset is the whole list, whatever is
    drawn. *)
Lemma take_subset_whole (l : list (list Z)) draw :
  Py.len l < 2 ^ 53 -> take_subset Py.float_one l draw = Ok l.
Proof.
  intros Hl. unfold take_subset.
  rewrite subset_size_one by (pose proof (len_nonneg l); lia).
  simpl bind.
  replace (Py.len l - Py.len l + 1) with 1 by lia.
  unfold Py.randint. simpl (0 <? 1). cbv iota.
  rewrite Z.sub_0_r, Z.mod_1_r. simpl bind. apply slice_whole.
Qed.

(** What [take_subset] returns is the slice it takes at the drawn start. *)
Lemma take_subset_ok frac (l : list (list Z)) draw out :
  take_subset frac l draw = Ok out ->
  exists size start,
    subset_size_of (Py.len l) frac = Ok size /\
    Py.randint 0 (Py.len l - size + 1) draw = Ok start /\
    out = slice_elems l start (start + size) 1.
Proof.
  unfold take_subset. intros H.
  destruct (subset_size_of (Py.len l) frac) as [size|]; simpl in H;
    [|discriminate].
  destruct (Py.randint 0 (Py.len l - size + 1) draw) as [start|] eqn:Er;
    simpl in H; [|discriminate].
  apply slice_ok in H as [_ ->]. now exists size, start.
Qed.

Lemma take_subset_incl frac (l : list (list Z)) draw out :
  take_subset frac l draw = Ok out -> incl out l.
Proof.
  intros H. apply take_subset_ok in H as (size & start & _ & _ & ->).
  apply slice_elems_incl.
Qed.




(** C3.  Without merging and without padding, a video of [n] frames
    contributes exactly [max(0, n - ((seq_len-1)*seq_step+1) + 1)] sequences,
    hence none when it is shorter than the window; the sequences of a table
    are those of its videos; and with [seq_len = 1], [seq_step = 1] a single
    10-frame video yields the ten singletons [[0]], ..., [[9]]. *)
Theorem sliding_window_sequence_count :
  (forall cfg _indices,
      multiple_target cfg = 0 -> pad_video_seq cfg = false ->
      seq_step cfg <> 0 ->
      exists seqs,
        seqs_from_video cfg _indices = Ok seqs /\
        Py.len seqs
        = Z.max 0 (Py.len _indices
                   - ((seq_len cfg - 1) * seq_step cfg + 1) + 1) /\
        (Py.len _indices < (seq_len cfg - 1) * seq_step cfg + 1 ->
         seqs = [])) /\
  (forall cfg imgnames all,
      multiple_target cfg = 0 -> pad_video_seq cfg = false ->
      seq_step cfg <> 0 ->
      build_sequence_indices cfg imgnames = Ok all ->
      exists video_frames,
        group_frames imgnames 0 [] = Ok video_frames /\
        Py.len all
        = zsum (map (fun v => window_count cfg (Py.len (snd v)))
                    (sorted_items video_frames))) /\
  (forall draw,
      get_sequence_indices default_config
        (video "S1_Directions_1.54138969" 10) draw
      = Ok [[0]; [1]; [2]; [3]; [4]; [5]; [6]; [7]; [8]; [9]]).
Proof.
  assert (per_video : forall cfg _indices,
      multiple_target cfg = 0 -> pad_video_seq cfg = false ->
      seq_step cfg <> 0 ->
      exists seqs,
        seqs_from_video cfg _indices = Ok seqs /\
        Py.len seqs = window_count cfg (Py.len _indices)).
  { intros cfg idx Hm Hp Hs. rewrite seqs_from_video_sliding by assumption.
    now apply seqs_sliding_count. }
  split; [|split].
  - intros cfg idx Hm Hp Hs.
    destruct (per_video cfg idx Hm Hp Hs) as (seqs & E & Hl).
    exists seqs. split; [exact E|]. split; [exact Hl|].
    intros Hshort. unfold window_count in Hl.
    rewrite Z.max_l in Hl by lia.
    destruct seqs; [reflexivity | discriminate Hl].
  - intros cfg imgnames all Hm Hp Hs Hb.
    apply build_ok in Hb as (vf & pv & Hg & Hf & ->).
    exists vf. split; [exact Hg|].
    rewrite len_concat.
    rewrite (Forall2_map_len (seqs_from_video cfg)
               (fun v => window_count cfg (Py.len v)) _ _ ) with (2 := Hf).
    + now rewrite map_map.
    + intros x y Hxy.
      destruct (per_video cfg x Hm Hp Hs) as (seqs & E & Hl). congruence.
  - intros draw. unfold get_sequence_indices.
    replace (build_sequence_indices default_config
               (video "S1_Directions_1.54138969" 10))
      with (Ok [[0]; [1]; [2]; [3]; [4]; [5]; [6]; [7]; [8]; [9]])
      by (vm_compute; reflexivity).
    simpl bind. apply take_subset_whole. reflexivity.
Qed.

Lemma sliding_window_sequence_count_witness :
  exists seqs,
    seqs_from_video
      {| seq_len := 2; seq_step := 2; multiple_target := 0;
         pad_video_seq := false; causal := true; subset_frac := Py.float_one |}
      [4; 5; 6; 7] = Ok seqs /\
    Py.len seqs = 2 /\ (4 < 3 -> seqs = []).
Proof.
  apply (proj1 sliding_window_sequence_count
           {| seq_len := 2; seq_step := 2; multiple_target := 0;
              pad_video_seq := false; causal := true; subset_frac := Py.float_one |}
           [4; 5; 6; 7]); simpl; [reflexivity | reflexivity | discriminate].
Defined.

(** ** Merged multi-target sequences *)

Lemma range3_nth start stop step k :
  0 <= k < Py.range_len start stop step ->
  nth_error (Py.range3 start stop step) (Z.to_nat k) = Some (start + k * step).
Proof.
  intros Hk. unfold Py.range3. rewrite nth_error_map, nth_error_seq.
  destruct (Nat.ltb_spec (Z.to_nat k) (Z.to_nat (Py.range_len start stop step)))
    as [_|H]; [|lia].
  simpl. now rewrite Z2Nat.id by lia.
Qed.




Lemma range_len_shift a b step :
  Py.range_len a (a + b) step = Py.range_len 0 b step.
Proof.
  unfold Py.range_len.
  replace (a <? a + b) with (0 <? b)
    by (destruct (0 <? b) eqn:E; symmetry;
        [apply Z.ltb_lt in E; apply Z.ltb_lt | apply Z.ltb_ge in E; apply Z.ltb_ge];
        lia).
  replace (a + b <? a) with (b <? 0)
    by (destruct (b <? 0) eqn:E; symmetry;
        [apply Z.ltb_lt in E; apply Z.ltb_lt | apply Z.ltb_ge in E; apply Z.ltb_ge];
        lia).
  replace (a + b - a - 1) with (b - 0 - 1) by lia.
  replace (a - (a + b) - 1) with (0 - b - 1) by lia.
  reflexivity.
Qed.







(** C4 as stated fails: the groups are subsampled, so that with
    [seq_step = 2] a sequence of [multiple_target = 4] holds two indices,
    not four; and with [seq_step = 0] no sequence is produced at all, the
    slice raises. *)
Lemma merged_sequences_are_subsampled :
  get_sequence_indices
    {| seq_len := 1; seq_step := 2; multiple_target := 4;
       pad_video_seq := false; causal := true; subset_frac := Py.float_one |}
    (video "S1_Walk.1" 7) 0
  = Ok [[0; 2]] /\
  Py.len [0; 2] <> 4 /\
  get_sequence_indices
    {| seq_len := 1; seq_step := 0; multiple_target := 4;
       pad_video_seq := false; causal := true; subset_frac := Py.float_one |}
    (video "S1_Walk.1" 7) 0
  = Err SliceStepZero.
Proof.
  split; [vm_compute; reflexivity|].
  split; [discriminate | vm_compute; reflexivity].
Qed.

(** ** Sequences stay inside one video, in temporal order *)

Lemma StronglySorted_nth {A} (R : A -> A -> Prop) (l : list A) i j x y :
  StronglySorted R l -> (i < j)%nat ->
  nth_error l i = Some x -> nth_error l j = Some y -> R x y.
Proof.
  intros H. revert i j. induction H as [|a l Hs IH Hf]; intros i j Hij Hi Hj.
  - destruct i; discriminate.
  - destruct j as [|j]; [lia|]. simpl in Hj. destruct i as [|i]; simpl in Hi.
    + injection Hi as <-. rewrite Forall_forall in Hf.
      apply Hf. eapply nth_error_In; eauto.
    + apply (IH i j); auto; lia.
Qed.

Lemma StronglySorted_app {A} (R : A -> A -> Prop) (l1 l2 : list A) :
  StronglySorted R l1 -> StronglySorted R l2 ->
  (forall x y, In x l1 -> In y l2 -> R x y) ->
  StronglySorted R (l1 ++ l2).
Proof.
  intros H1 H2 H. induction H1 as [|a l Hs IH Hf]; simpl; [exact H2|].
  constructor.
  - apply IH. intros x y Hx Hy. apply H; [now right | exact Hy].
  - apply Forall_app. split; [exact Hf|].
    apply Forall_forall. intros y Hy. apply H; [now left | exact Hy].
Qed.

Lemma StronglySorted_repeat (x : Z) (k : nat) : StronglySorted Z.le (repeat x k).
Proof.
  induction k as [|k IH]; simpl; constructor; [exact IH|].
  apply Forall_forall. intros y Hy. apply repeat_spec in Hy. lia.
Qed.

Lemma StronglySorted_lt_le (l : list Z) :
  StronglySorted Z.lt l -> StronglySorted Z.le l.
Proof.
  induction 1 as [|a l Hs IH Hf]; constructor; [exact IH|].
  eapply Forall_impl; [|exact Hf]. intros; simpl in *; lia.
Qed.

Lemma adjust_forward_nonneg n i step :
  0 <= n -> 0 < step -> 0 <= Py.adjust n i step.
Proof.
  intros Hn Hs. unfold Py.adjust.
  destruct (i <? 0) eqn:E1; destruct (i + n <? 0) eqn:E2;
    destruct (step <? 0) eqn:E3; destruct (n <=? i) eqn:E4; lia.
Qed.

(** Every element of a forward walk sits at or after its starting position. *)
Lemma take_every_positions {A} (l : list A) pos step count y :
  0 <= pos -> 0 < step -> In y (Py.take_every l pos step count) ->
  exists q, (Z.to_nat pos <= q)%nat /\ nth_error l q = Some y.
Proof.
  revert pos. induction count as [|c IH]; intros pos Hp Hs Hin; simpl in Hin.
  - destruct Hin.
  - destruct (nth_error l (Z.to_nat pos)) as [x|] eqn:E; [|destruct Hin].
    destruct Hin as [<-|Hin].
    + exists (Z.to_nat pos). split; [lia | exact E].
    + destruct (IH (pos + step)) as (q & Hq & Eq); [lia | lia | exact Hin |].
      exists q. split; [lia | exact Eq].
Qed.

Lemma take_every_sorted (l : list Z) pos step count :
  StronglySorted Z.lt l -> 0 <= pos -> 0 < step ->
  StronglySorted Z.lt (Py.take_every l pos step count).
Proof.
  intros Hl. revert pos. induction count as [|c IH]; intros pos Hp Hs; simpl.
  - constructor.
  - destruct (nth_error l (Z.to_nat pos)) as [x|] eqn:E; [|constructor].
    constructor; [apply IH; lia|].
    apply Forall_forall. intros y Hy.
    apply take_every_positions in Hy as (q & Hq & Eq); try lia.
    apply (StronglySorted_nth Z.lt l (Z.to_nat pos) q); auto. lia.
Qed.

Lemma slice_elems_sorted (l : list Z) start stop step :
  StronglySorted Z.lt l -> 0 < step ->
  StronglySorted Z.lt (slice_elems l start stop step).
Proof.
  intros Hl Hs. apply take_every_sorted; auto.
  apply adjust_forward_nonneg; [apply len_nonneg | exact Hs].
Qed.

Lemma video_of_slice imgnames key l start stop step :
  video_of imgnames key l -> 0 < step ->
  video_of imgnames key (slice_elems l start stop step).
Proof.
  intros [Hs Hf] Hstep. split; [now apply slice_elems_sorted|].
  rewrite Forall_forall in *. intros x Hx.
  apply Hf. eapply slice_elems_incl; eauto.
Qed.

Lemma video_of_within imgnames key l :
  video_of imgnames key l -> within_video imgnames l.
Proof.
  intros [Hs Hf]. split; [now apply StronglySorted_lt_le | now exists key].
Qed.

Lemma getitem_first_le (l : list Z) first :
  StronglySorted Z.lt l -> Py.getitem l 0 = Ok first ->
  In first l /\ forall y, In y l -> first <= y.
Proof.
  intros Hl H. unfold Py.getitem in H. simpl in H.
  destruct l as [|a l]; simpl in H; [discriminate|]. injection H as <-.
  split; [now left|]. intros y [<-|Hy]; [lia|].
  apply StronglySorted_inv in Hl as [_ Hf].
  rewrite Forall_forall in Hf. specialize (Hf y Hy). lia.
Qed.

Lemma getitem_last_ge (l : list Z) last :
  StronglySorted Z.lt l -> Py.getitem l (-1) = Ok last ->
  In last l /\ forall y, In y l -> y <= last.
Proof.
  intros Hl H. unfold Py.getitem in H.
  change (-1 <? 0) with true in H. cbv iota in H.
  destruct (-1 + Py.len l <? 0) eqn:E; [discriminate|].
  apply Z.ltb_ge in E.
  destruct (nth_error l (Z.to_nat (-1 + Py.len l))) as [x|] eqn:En;
    [|discriminate].
  injection H as <-. split; [eapply nth_error_In; eauto|].
  intros y Hy. apply In_nth_error in Hy as [j Ej].
  assert (Hj : (j < List.length l)%nat) by (apply nth_error_Some; congruence).
  unfold Py.len in *.
  destruct (Nat.eq_dec j (Z.to_nat (-1 + Z.of_nat (List.length l)))) as [->|Hne].
  - rewrite En in Ej. injection Ej as <-. lia.
  - assert (y < x); [|lia].
    apply (StronglySorted_nth Z.lt l j
             (Z.to_nat (-1 + Z.of_nat (List.length l)))); auto. lia.
Qed.

Lemma Forall2_result {A B} (f : A -> result B) (P : B -> Prop) xs ys :
  (forall x y, f x = Ok y -> P y) ->
  Forall2 (fun x y => f x = Ok y) xs ys -> Forall P ys.
Proof.
  intros Hf H. induction H; constructor; eauto.
Qed.

Lemma padded_sequence_within imgnames key l step fl fr i s :
  video_of imgnames key l -> 0 < step ->
  padded_sequence step fl fr l i = Ok s -> within_video imgnames s.
Proof.
  intros Hv Hs H. unfold padded_sequence in H.
  replace (step =? 0) with false in H by (symmetry; apply Z.eqb_neq; lia).
  destruct (Py.getitem l 0) as [first|] eqn:Ef; simpl in H; [|discriminate].
  rewrite slice_nonzero in H by lia. simpl in H.
  destruct (Py.getitem l (-1)) as [last|] eqn:El; simpl in H; [|discriminate].
  injection H as <-.
  pose proof (video_of_slice imgnames key l
                (Z.max (i mod step) (i - fl * step))
                (Z.min (Py.len l - (Py.len l - 1 - i) mod step)
                       (i + fr * step + 1)) step Hv Hs) as [Hws Hwf].
  destruct Hv as [Hl Hf].
  destruct (getitem_first_le l first Hl Ef) as [Hfin Hfle].
  destruct (getitem_last_ge l last Hl El) as [Hlin Hlge].
  set (w := slice_elems l (Z.max (i mod step) (i - fl * step))
              (Z.min (Py.len l - (Py.len l - 1 - i) mod step)
                     (i + fr * step + 1)) step) in *.
  assert (Hw : incl w l) by apply slice_elems_incl.
  split.
  - unfold Py.repeat_list. apply StronglySorted_app.
    + apply StronglySorted_repeat.
    + apply StronglySorted_app.
      * now apply StronglySorted_lt_le.
      * apply StronglySorted_repeat.
      * intros x y Hx Hy. apply repeat_spec in Hy. subst y. auto.
    + intros x y Hx Hy. apply repeat_spec in Hx. subst x.
      apply in_app_or in Hy as [Hy|Hy]; [auto|].
      apply repeat_spec in Hy. subst y. auto.
  - exists key. rewrite Forall_forall in *. intros x Hx.
    unfold Py.repeat_list in Hx.
    apply in_app_or in Hx as [Hx|Hx];
      [apply repeat_spec in Hx; subst x; auto|].
    apply in_app_or in Hx as [Hx|Hx];
      [auto | apply repeat_spec in Hx; subst x; auto].
Qed.

Lemma seqs_from_video_within imgnames key cfg l seqs :
  video_of imgnames key l -> 1 <= seq_step cfg ->
  seqs_from_video cfg l = Ok seqs -> Forall (within_video imgnames) seqs.
Proof.
  intros Hv Hs H. unfold seqs_from_video in H.
  destruct (negb (multiple_target cfg =? 0)).
  - unfold seqs_multiple_target in H.
    destruct (mapM _ _) as [groups|] eqn:Eg in H; simpl in H; [|discriminate].
    apply slice_ok in H as [_ ->]. apply mapM_ok in Eg.
    apply Forall_forall. intros s Hin. apply slice_elems_incl in Hin.
    revert s Hin. apply Forall_forall.
    eapply Forall2_result; [|exact Eg]. cbv beta. intros i s Hi.
    apply slice_ok in Hi as [_ ->].
    eapply video_of_within, video_of_slice; eauto; lia.
  - destruct (pad_video_seq cfg).
    + unfold seqs_padded in H. apply mapM_ok in H.
      eapply Forall2_result; [|exact H]. cbv beta. intros i s Hi.
      eapply padded_sequence_within; eauto; lia.
    + unfold seqs_sliding in H. apply mapM_ok in H.
      eapply Forall2_result; [|exact H]. cbv beta. intros i s Hi.
      apply slice_ok in Hi as [_ ->].
      eapply video_of_within, video_of_slice; eauto; lia.
Qed.

Lemma key_eqb_eq k1 k2 : key_eqb k1 k2 = true -> k1 = k2.
Proof.
  destruct k1 as [[s1 a1] c1], k2 as [[s2 a2] c2]. unfold key_eqb.
  rewrite !andb_true_iff, !String.eqb_eq. intros [[-> ->] ->]. reflexivity.
Qed.

Lemma StronglySorted_snoc (l : list Z) (x : Z) :
  StronglySorted Z.lt l -> Forall (fun y => y < x) l ->
  StronglySorted Z.lt (l ++ [x]).
Proof.
  intros Hl Hf. apply StronglySorted_app; auto.
  - repeat constructor.
  - intros a b Ha [<-|[]]. rewrite Forall_forall in Hf. auto.
Qed.

Lemma dict_append_grouped imgnames vf key idx :
  grouped imgnames idx vf -> frame_of imgnames key idx ->
  grouped imgnames (idx + 1) (dict_append vf key idx).
Proof.
  intros Hg Hk. unfold grouped in *.
  induction Hg as [|[k l] vf [[Hs Hf] Hb] Hg IH]; simpl.
  - constructor; [|constructor]. simpl. split; [split|].
    + repeat constructor.
    + constructor; [exact Hk | constructor].
    + constructor; [lia | constructor].
  - simpl in *. destruct (key_eqb k key) eqn:E.
    + apply key_eqb_eq in E. subst k. constructor; simpl.
      * split; [split|].
        -- now apply StronglySorted_snoc.
        -- apply Forall_app. split; [exact Hf | constructor; auto].
        -- apply Forall_app. split.
           ++ eapply Forall_impl; [|exact Hb]. intros; simpl in *; lia.
           ++ constructor; [lia | constructor].
      * eapply Forall_impl; [|exact Hg]. intros [k' l'] [Hv Hb']. split; auto.
        eapply Forall_impl; [|exact Hb']. intros; simpl in *; lia.
    + constructor; simpl; [|exact IH].
      split; [split; auto|].
      eapply Forall_impl; [|exact Hb]. intros; simpl in *; lia.
Qed.

Lemma group_frames_grouped imgnames :
  forall rest pre vf vf',
    imgnames = pre ++ rest ->
    grouped imgnames (Py.len pre) vf ->
    group_frames rest (Py.len pre) vf = Ok vf' ->
    grouped imgnames (Py.len imgnames) vf'.
Proof.
  induction rest as [|name rest IH]; intros pre vf vf' E Hg H; simpl in H.
  - injection H as <-. rewrite app_nil_r in E. now subst pre.
  - destruct (_parse_h36m_imgname name) as [key|] eqn:Ek; simpl in H;
      [|discriminate].
    apply (IH (pre ++ [name]) (dict_append vf key (Py.len pre)) vf').
    + rewrite <- app_assoc. exact E.
    + replace (Py.len (pre ++ [name])) with (Py.len pre + 1)
        by (unfold Py.len; rewrite length_app; simpl; lia).
      apply dict_append_grouped; [exact Hg|].
      split; [apply len_nonneg|]. exists name. split; [|exact Ek].
      unfold Py.len. rewrite Nat2Z.id, E, nth_error_app2, Nat.sub_diag by lia.
      reflexivity.
    + replace (Py.len (pre ++ [name])) with (Py.len pre + 1)
        by (unfold Py.len; rewrite length_app; simpl; lia).
      exact H.
Qed.

Lemma insert_item_In x y l : In y (insert_item x l) -> y = x \/ In y l.
Proof.
  induction l as [|z l IH]; simpl.
  - intros [<-|[]]. now left.
  - destruct (key_ltb (fst z) (fst x)).
    + intros [<-|H]; [right; now left|].
      destruct (IH H) as [->|Hin]; [now left | right; now right].
    + intros [<-|H]; [now left | now right].
Qed.

Lemma sorted_items_In y l : In y (sorted_items l) -> In y l.
Proof.
  induction l as [|x l IH]; simpl; [auto|].
  intros H. apply insert_item_In in H as [->|H]; [now left | right; auto].
Qed.

Lemma build_within cfg imgnames all :
  1 <= seq_step cfg ->
  build_sequence_indices cfg imgnames = Ok all ->
  Forall (within_video imgnames) all.
Proof.
  intros Hs Hb. apply build_ok in Hb as (vf & pv & Hg & Hf & ->).
  assert (Hgr : grouped imgnames (Py.len imgnames) vf).
  { apply (group_frames_grouped imgnames imgnames [] [] vf);
      [reflexivity | constructor | exact Hg]. }
  apply Forall_forall. intros s Hin.
  apply in_concat in Hin as (seqs & Hseqs & Hs').
  revert s Hs'. apply Forall_forall. revert seqs Hseqs. apply Forall_forall.
  assert (Hvid : Forall (fun l => exists key, video_of imgnames key l)
                        (map snd (sorted_items vf))).
  { apply Forall_forall. intros l Hl.
    apply in_map_iff in Hl as ([k l'] & <- & Hin). simpl.
    apply sorted_items_In in Hin. unfold grouped in Hgr.
    rewrite Forall_forall in Hgr. destruct (Hgr _ Hin) as [Hv _].
    now exists k. }
  induction Hf as [|l seqs ls pv' Hl _ IH]; constructor.
  - inversion Hvid as [|? ? [key Hv] ?]; subst.
    eapply seqs_from_video_within; eauto.
  - apply IH. now inversion Hvid.
Qed.







(** C7 as stated fails: a negative [seq_step] is accepted, and the padded
    window of frame 1 of a 4-frame video then runs backwards. *)
Lemma negative_step_breaks_frame_order :
  get_sequence_indices
    {| seq_len := 3; seq_step := -2; multiple_target := 0;
       pad_video_seq := true; causal := false; subset_frac := Py.float_one |}
    (video "S1_Walk.1" 4) 0
  = Ok [[0; 3; 3; 3]; [0; 0; 3; 1; 3; 3]; [0; 0; 3; 3; 3]; [0; 0; 0; 3; 3]] /\
  ~ StronglySorted Z.le [0; 0; 3; 1; 3; 3].
Proof.
  split; [vm_compute; reflexivity|].
  intros H. apply StronglySorted_inv in H as [H _].
  apply StronglySorted_inv in H as [H _].
  apply StronglySorted_inv in H as [_ H].
  apply Forall_inv in H. lia.
Qed.

(** ** Padded sequences *)

Lemma getitem_first_ok {A} (l : list A) :
  0 < Py.len l -> exists x, Py.getitem l 0 = Ok x.
Proof.
  destruct l as [|a l]; unfold Py.len; simpl; [lia|].
  intros _. now exists a.
Qed.

Lemma getitem_last_ok {A} (l : list A) :
  0 < Py.len l -> exists x, Py.getitem l (-1) = Ok x.
Proof.
  intros Hn. unfold Py.getitem.
  change (-1 <? 0) with true. cbv iota.
  replace (-1 + Py.len l <? 0) with false by (symmetry; apply Z.ltb_ge; lia).
  destruct (nth_error l (Z.to_nat (-1 + Py.len l))) as [x|] eqn:E;
    [now exists x|].
  apply nth_error_None in E. unfold Py.len in *. lia.
Qed.

(** The window of frame [i] has [frames_left] slots before [i] and
    [frames_right] after it, whatever had to be padded. *)
Lemma padded_sequence_length (l : list Z) step fl fr i :
  0 < step -> 0 <= fl -> 0 <= fr -> 0 <= i < Py.len l ->
  exists s, padded_sequence step fl fr l i = Ok s /\ Py.len s = fl + fr + 1.
Proof.
  intros Hs Hfl Hfr Hi. unfold padded_sequence.
  replace (step =? 0) with false by (symmetry; apply Z.eqb_neq; lia).
  destruct (getitem_first_ok l) as [first ->]; [lia|].
  destruct (getitem_last_ok l) as [last ->]; [lia|].
  rewrite slice_nonzero by lia. simpl bind.
  set (n := Py.len l) in *.
  set (start := Z.max (i mod step) (i - fl * step)).
  set (stop := Z.min (n - (n - 1 - i) mod step) (i + fr * step + 1)).
  eexists. split; [reflexivity|].
  pose proof (Z.div_mod i step ltac:(lia)) as Ei.
  pose proof (Z.mod_pos_bound i step Hs) as Bi.
  pose proof (Z.div_mod (n - 1 - i) step ltac:(lia)) as Er.
  pose proof (Z.mod_pos_bound (n - 1 - i) step Hs) as Br.
  assert (Hqi : 0 <= i / step) by (apply Z.div_pos; lia).
  assert (Hqr : 0 <= (n - 1 - i) / step) by (apply Z.div_pos; lia).
  set (L := Z.min fl (i / step)).
  set (R := Z.min fr ((n - 1 - i) / step)).
  assert (Hstart : start = i - L * step) by (unfold start, L; nia).
  assert (Hstop : stop = i + R * step + 1) by (unfold stop, R; nia).
  assert (HL : 0 <= L <= i / step) by (unfold L; lia).
  assert (HR : 0 <= R <= (n - 1 - i) / step) by (unfold R; lia).
  destruct (slice_elems_forward l start stop step) as (_ & Hlen & _);
    try nia.
  fold n in Hlen.
  rewrite !Z.min_l in Hlen by nia.
  assert (Hcount : Py.range_len start stop step = L + R + 1).
  { unfold Py.range_len.
    replace (0 <? step) with true by (symmetry; apply Z.ltb_lt; lia).
    replace (start <? stop) with true by (symmetry; apply Z.ltb_lt; nia).
    replace (stop - start - 1) with ((L + R) * step) by nia.
    rewrite Z.div_mul by lia. reflexivity. }
  rewrite Hcount in Hlen.
  unfold Py.len, Py.repeat_list.
  rewrite !length_app, !repeat_length, Hlen.
  fold L. fold R.
  replace (Z.max 0 (fl - i / step)) with (fl - L) by (unfold L; lia).
  replace (Z.max 0 (fr - (n - 1 - i) / step)) with (fr - R) by (unfold R; lia).
  lia.
Qed.

(** Causal padding gives [seq_len] frames per sequence; centred padding
    gives [2 * ((seq_len - 1) // 2) + 1], which is [seq_len - 1] for an even
    [seq_len]. *)
Lemma seqs_padded_lengths cfg (l : list Z) :
  1 <= seq_len cfg -> 1 <= seq_step cfg ->
  exists seqs,
    seqs_padded cfg l = Ok seqs /\
    Py.len seqs = Py.len l /\
    Forall (fun s => Py.len s =
                     if causal cfg then seq_len cfg
                     else 2 * ((seq_len cfg - 1) / 2) + 1) seqs.
Proof.
  intros Hlen Hstep. unfold seqs_padded.
  set (fl := if causal cfg then seq_len cfg - 1 else (seq_len cfg - 1) / 2).
  set (fr := if causal cfg then 0 else fl).
  assert (Hfl : 0 <= fl)
    by (unfold fl; destruct (causal cfg); [lia | apply Z.div_pos; lia]).
  assert (Hfr : 0 <= fr) by (unfold fr; destruct (causal cfg); lia).
  assert (Htot : fl + fr + 1 = if causal cfg then seq_len cfg
                               else 2 * ((seq_len cfg - 1) / 2) + 1)
    by (unfold fr, fl; destruct (causal cfg); lia).
  rewrite <- Htot. clear Htot.
  assert (Hall : forall is_,
             Forall (fun i => 0 <= i < Py.len l) is_ ->
             exists seqs,
               mapM (padded_sequence (seq_step cfg) fl fr l) is_ = Ok seqs /\
               List.length seqs = List.length is_ /\
               Forall (fun s => Py.len s = fl + fr + 1) seqs).
  { induction 1 as [|i is_ Hi _ (seqs & E & Hl & Hf)]; simpl.
    - exists []. repeat split; constructor.
    - destruct (padded_sequence_length l (seq_step cfg) fl fr i)
        as (s & Es & Hs); try lia.
      rewrite Es, E. simpl. exists (s :: seqs).
      split; [reflexivity|]. split; [simpl; lia | now constructor]. }
  destruct (Hall (Py.range (Py.len l))) as (seqs & E & Hl & Hf).
  - apply Forall_forall. intros i Hin. unfold Py.range in Hin.
    apply range3_In in Hin as [Hin _]; lia.
  - exists seqs. split; [exact E|]. split; [|exact Hf].
    unfold Py.len at 1. rewrite Hl.
    fold (Py.len (Py.range (Py.len l))). unfold Py.range.
    rewrite range3_length, range_len_unit.
    pose proof (len_nonneg l). lia.
Qed.

(** C1.  The centred (non-causal) padding of an even [seq_len] is one frame
    short: with [seq_len = 2], [seq_step = 1] a padded 3-frame video yields
    the one-element sequences [[0]], [[1]], [[2]], not sequences of two
    frames. *)
Theorem padded_noncausal_even_seq_len draw :
  get_sequence_indices
    {| seq_len := 2; seq_step := 1; multiple_target := 0;
       pad_video_seq := true; causal := false; subset_frac := Py.float_one |}
    (video "S1_Directions_1.54138969" 3) draw
  = Ok [[0]; [1]; [2]].
Proof.
  unfold get_sequence_indices.
  replace (build_sequence_indices _ _) with (Ok [[0]; [1]; [2]])
    by (vm_compute; reflexivity).
  simpl bind. apply take_subset_whole. reflexivity.
Qed.

(** ** The random subset *)

Lemma nth_error_skipn_cons {A} (l : list A) p x :
  nth_error l p = Some x -> skipn p l = x :: skipn (S p) l.
Proof.
  revert l. induction p as [|p IH]; intros [|a l] H; try discriminate.
  - simpl in H. now injection H as <-.
  - simpl in H. apply IH in H. exact H.
Qed.

Lemma take_every_contiguous {A} (l : list A) k p :
  (p + k <= List.length l)%nat ->
  Py.take_every l (Z.of_nat p) 1 k = firstn k (skipn p l).
Proof.
  revert p. induction k as [|k IH]; intros p Hp; simpl; [reflexivity|].
  rewrite Nat2Z.id.
  destruct (nth_error l p) as [x|] eqn:E.
  - rewrite (nth_error_skipn_cons l p x E). simpl. f_equal.
    replace (Z.of_nat p + 1) with (Z.of_nat (S p)) by lia.
    apply IH. lia.
  - apply nth_error_None in E. lia.
Qed.


Lemma adjust_forward_le n i step :
  0 <= n -> 0 < step -> Py.adjust n i step <= n.
Proof.
  intros Hn Hs. unfold Py.adjust.
  destruct (i <? 0) eqn:E1; destruct (i + n <? 0) eqn:E2;
    destruct (step <? 0) eqn:E3; destruct (n <=? i) eqn:E4; lia.
Qed.

(** Whatever its bounds are, a slice of step 1 is a run of consecutive
    entries. *)
Lemma slice_elems_run {A} (l : list A) start stop :
  exists a k, slice_elems l start stop 1 = firstn k (skipn a l).
Proof.
  unfold slice_elems.
  pose proof (len_nonneg l) as Hn.
  pose proof (adjust_forward_nonneg (Py.len l) start 1 Hn eq_refl) as Ha.
  pose proof (adjust_forward_le (Py.len l) start 1 Hn eq_refl) as Ha'.
  pose proof (adjust_forward_le (Py.len l) stop 1 Hn eq_refl) as Hb.
  set (a := Py.adjust (Py.len l) start 1) in *.
  set (b := Py.adjust (Py.len l) stop 1) in *.
  exists (Z.to_nat a), (Z.to_nat (Py.range_len a b 1)).
  rewrite <- (Z2Nat.id a) at 1 by lia.
  apply take_every_contiguous.
  assert (Hc : Py.range_len a b 1 = Z.max 0 (b - a)).
  { unfold Py.range_len. change (0 <? 1) with true. cbv iota.
    destruct (a <? b) eqn:E; [apply Z.ltb_lt in E | apply Z.ltb_ge in E].
    - rewrite Z.div_1_r. lia.
    - lia. }
  rewrite Hc. unfold Py.len in *. lia.
Qed.




(** C6 as stated fails: two runs on the same table and configuration that
    draw different offsets return different lists. *)
Lemma two_runs_differ :
  get_sequence_indices half_config (video "S1_Walk.1" 3) 0 = Ok [[0]] /\
  get_sequence_indices half_config (video "S1_Walk.1" 3) 1 = Ok [[1]] /\
  get_sequence_indices half_config (video "S1_Walk.1" 3) 0
  <> get_sequence_indices half_config (video "S1_Walk.1" 3) 1.
Proof.
  split; [reflexivity|]. split; [reflexivity|].
  vm_compute. discriminate.
Qed.

(** C6 (as the code has it).  The only source of variation is the drawn
    start offset: two runs that draw the same value return the same list,
    and with [subset_frac = 1.0] every two runs do (the product
    [total * 1.0] is [total] itself as long as [total] is below [2^53],
    where binary64 holds every integer). *)
Theorem runs_agree_up_to_the_draw cfg imgnames draw1 draw2 :
  (subset_frac cfg = Py.float_one /\
   forall full, build_sequence_indices cfg imgnames = Ok full ->
                Py.len full < 2 ^ 53) \/
  draw1 = draw2 ->
  get_sequence_indices cfg imgnames draw1
  = get_sequence_indices cfg imgnames draw2.
Proof.
  intros [[Hq Hl] | ->]; [|reflexivity].
  unfold get_sequence_indices.
  destruct (build_sequence_indices cfg imgnames) as [all|e]; simpl;
    [|reflexivity].
  rewrite Hq. now rewrite !take_subset_whole by (apply Hl; reflexivity).
Qed.

Lemma runs_agree_up_to_the_draw_witness :
  get_sequence_indices default_config (video "S1_Walk.1" 3) 0
  = get_sequence_indices default_config (video "S1_Walk.1" 3) 7.
Proof.
  apply (runs_agree_up_to_the_draw default_config (video "S1_Walk.1" 3) 0 7).
  left. split; [reflexivity|].
  intros full H. vm_compute in H. injection H as <-. reflexivity.
Defined.

(** ** The constructor's check *)

Lemma str_in_In s l : str_in s l = true <-> In s l.
Proof.
  unfold str_in. rewrite existsb_exists. split.
  - intros (x & Hx & E). apply String.eqb_eq in E. now subst x.
  - intros H. exists s. split; [exact H | apply String.eqb_refl].
Qed.

Lemma lift_own_not_unsupported {A} (r : result A) s :
  (forall e, r = Err e -> e <> UnsupportedKeypoint2dSrc s) ->
  forall x, lift_own r = inl x -> x <> Raised (UnsupportedKeypoint2dSrc s).
Proof.
  intros Hr x H. destruct r as [a|e]; simpl in H; [discriminate|].
  injection H as <-. intros E. injection E as E. exact (Hr e eq_refl E).
Qed.

Lemma resolve_errors is_abs root f e :
  resolve is_abs root f = Err e -> e = TypeError.
Proof.
  unfold resolve, osp_join. destruct (is_abs f); [discriminate|].
  destruct root as [r|]; [|now intros H; injection H as <-].
  destruct f as [|c f]; [discriminate|].
  destruct (Ascii.eqb_spec c "/"%char) as [->|Hne]; [discriminate|].
  destruct c as [[] [] [] [] [] [] [] []]; discriminate.
Qed.

(** C8.  [__init__] raises its unsupported-[keypoint_2d_src] error exactly
    when [keypoint_2d_src] is none of ['gt'], ['detection'], ['pipeline'];
    it then does so whatever the file system holds and before the
    base-class constructor (which loads the annotations) is run. *)
Theorem init_rejects_unsupported_keypoint_2d_src
    (is_abs exists_ : string -> bool) (B : Type)
    (base_init : init_args -> option string -> result B) (args : init_args) :
  ((exists s, __init__ is_abs exists_ B base_init args
              = inl (Raised (UnsupportedKeypoint2dSrc s)))
   <-> ~ In (keypoint_2d_src args) ["gt"; "detection"; "pipeline"]%string) /\
  (~ In (keypoint_2d_src args) ["gt"; "detection"; "pipeline"]%string ->
   __init__ is_abs exists_ B base_init args
   = inl (Raised (UnsupportedKeypoint2dSrc (keypoint_2d_src args)))).
Proof.
  assert (Hbad : ~ In (keypoint_2d_src args)
                      ["gt"; "detection"; "pipeline"]%string ->
                 __init__ is_abs exists_ B base_init args
                 = inl (Raised (UnsupportedKeypoint2dSrc
                                  (keypoint_2d_src args)))).
  { intros Hn. unfold __init__.
    destruct (str_in (keypoint_2d_src args) SUPPORTED_keypoint_2d_src) eqn:E;
      [|reflexivity].
    apply str_in_In in E. contradiction. }
  split; [split|exact Hbad].
  - intros [s Hs] Hin. apply str_in_In in Hin.
    unfold __init__ in Hs. fold SUPPORTED_keypoint_2d_src in Hin.
    rewrite Hin in Hs. simpl negb in Hs. cbv iota in Hs.
    destruct (lift_own _) as [e1|det] eqn:E1 in Hs.
    + injection Hs as ->. revert E1.
      destruct (truthy (keypoint_2d_det_file args)) as [f|]; [|discriminate].
      destruct (resolve is_abs (data_root args) f) as [r|e] eqn:Er;
        simpl; [discriminate|].
      apply resolve_errors in Er. subst e. discriminate.
    + destruct (lift_own _) as [e2|factor] eqn:E2 in Hs.
      * injection Hs as ->. revert E2.
        destruct (truthy (factor_file args)) as [f|]; [|discriminate].
        destruct (resolve is_abs (data_root args) f) as [r|e] eqn:Er; simpl.
        -- destruct (exists_ r); discriminate.
        -- apply resolve_errors in Er. subst e. discriminate.
      * destruct (base_init args factor); discriminate.
  - intros Hn. eexists. now apply Hbad.
Qed.

Lemma init_rejects_unsupported_keypoint_2d_src_witness :
  __init__ (fun _ => true) (fun _ => true) unit (fun _ _ => Ok tt)
    {| arg_cfg := default_config; keypoint_2d_src := "cpn_ft";
       keypoint_2d_det_file := None; factor_file := None;
       data_root := None |}
  = inl (Raised (UnsupportedKeypoint2dSrc "cpn_ft")).
Proof.
  apply (proj2 (init_rejects_unsupported_keypoint_2d_src
                  (fun _ => true) (fun _ => true) unit (fun _ _ => Ok tt)
                  {| arg_cfg := default_config; keypoint_2d_src := "cpn_ft";
                     keypoint_2d_det_file := None; factor_file := None;
                     data_root := None |})).
  simpl. intros [H|[H|[H|[]]]]; discriminate H.
Defined.

(** ** Failing parses propagate *)

Lemma parse_errors imgname e :
  _parse_h36m_imgname imgname = Err e -> e = UnpackError.
Proof.
  unfold _parse_h36m_imgname, Py.split1.
  destruct (Py.split_first "_" (Py.basename imgname)) as [[s r1]|]; simpl;
    [|now intros H; injection H as <-].
  destruct (Py.split_first "." r1) as [[a r2]|]; simpl;
    [|now intros H; injection H as <-].
  destruct (Py.split_first "_" r2) as [[c r3]|]; simpl;
    [discriminate | now intros H; injection H as <-].
Qed.

Lemma group_frames_unparsed imgnames idx vf :
  Exists (fun name => ~ delimited (Py.basename name)) imgnames ->
  group_frames imgnames idx vf = Err UnpackError.
Proof.
  intros H. revert idx vf.
  induction H as [name rest Hn | name rest _ IH]; intros idx vf; simpl.
  - now rewrite (parse_not_delimited name Hn).
  - destruct (_parse_h36m_imgname name) as [key|e] eqn:E; simpl.
    + apply IH.
    + apply parse_errors in E. now subst e.
Qed.

(** C10.  [_parse_h36m_imgname] returns the triple (subject, action,
    camera) exactly for the image names whose basename reads
    [subject _ action . camera _ rest], the three delimiters being the first
    ['_'], the first ['.'] after it and the first ['_'] after that; it
    succeeds whenever the three delimiters occur in this order and fails
    with an unpacking error otherwise (as for ['foo.jpg']), and then so do
    [get_sequence_indices] and [get_camera_param]. *)
Theorem parse_h36m_imgname_is_partial :
  (forall imgname subj action camera,
      _parse_h36m_imgname imgname = Ok (subj, action, camera) <->
      exists rest,
        Py.basename imgname
        = (subj ++ String "_" (action ++ String "."
                                 (camera ++ String "_" rest)))%string
        /\ ~ contains "_" subj /\ ~ contains "." action
        /\ ~ contains "_" camera) /\
  (forall imgname,
      delimited (Py.basename imgname) ->
      exists key, _parse_h36m_imgname imgname = Ok key) /\
  (forall imgname,
      ~ delimited (Py.basename imgname) ->
      _parse_h36m_imgname imgname = Err UnpackError) /\
  _parse_h36m_imgname "foo.jpg" = Err UnpackError /\
  (forall cfg imgnames draw,
      Exists (fun name => ~ delimited (Py.basename name)) imgnames ->
      get_sequence_indices cfg imgnames draw = Err UnpackError) /\
  (forall (P : Type) (table : camera_table P) imgname,
      ~ delimited (Py.basename imgname) ->
      get_camera_param (Some table) imgname = Err UnpackError).
Proof.
  split; [exact parse_ok_iff|].
  split; [exact parse_delimited|].
  split; [exact parse_not_delimited|].
  split; [reflexivity|].
  split.
  - intros cfg imgnames draw H.
    unfold get_sequence_indices, build_sequence_indices.
    now rewrite (group_frames_unparsed imgnames 0 [] H).
  - intros P table imgname H. unfold get_camera_param.
    now rewrite (parse_not_delimited imgname H).
Qed.

Lemma parse_h36m_imgname_is_partial_witness :
  exists key,
    _parse_h36m_imgname
      "S1/S1_Directions_1.54138969/S1_Directions_1.54138969_000001.jpg"
    = Ok key.
Proof.
  apply (proj1 (proj2 parse_h36m_imgname_is_partial)).
  exists "S1"%string, "Directions_1"%string, "54138969"%string,
         "000001.jpg"%string.
  reflexivity.
Defined.

(** ** The codec: shapes and the round trip *)

Module MonoPoseLiftingFacts.

Import MonoPoseLifting.
Local Open Scope Q_scope.

























(** C9 as stated fails: with [remove_root] the label of a two-joint target
    has one joint, and so has each weight array: the weights are not
    [[N][K]]. *)
Lemma weights_follow_the_label :
  exists e,
    encode sample_norm_x sample_norm_y sample_trajectory_weight
           {| zero_center := true; remove_root := true;
              save_index := false; concat_vis := false |}
           sample_keypoints sample_visible sample_target sample_visible
           sample_camera = Ok e /\
    lifting_target_weights e = [[0]] /\
    trajectory_weights e = [[0]] /\
    ~ has_shape2 1 2 (lifting_target_weights e) /\
    ~ has_shape2 1 2 (trajectory_weights e).
Proof.
  eexists. split; [reflexivity|]. simpl.
  split; [reflexivity|]. split; [reflexivity|].
  split; intros [_ H]; apply Forall_inv in H; discriminate H.
Qed.




End MonoPoseLiftingFacts.

(** * Further properties of the sequence indexer *)

(** ** The elements of a padded sequence *)

Lemma getitem_zero_nth {A} (l : list A) x :
  Py.getitem l 0 = Ok x -> nth_error l 0 = Some x.
Proof.
  destruct l as [|a l]; unfold Py.getitem; simpl; [discriminate|].
  intros H. injection H as <-. reflexivity.
Qed.

Lemma getitem_last_nth {A} (l : list A) x :
  Py.getitem l (-1) = Ok x ->
  nth_error l (Z.to_nat (Py.len l - 1)) = Some x.
Proof.
  unfold Py.getitem. change (-1 <? 0) with true. cbv iota.
  destruct (-1 + Py.len l <? 0); [discriminate|].
  replace (Py.len l - 1) with (-1 + Py.len l) by lia.
  destruct (nth_error l (Z.to_nat (-1 + Py.len l))) as [y|]; [|discriminate].
  now intros H; injection H as <-.
Qed.

Lemma padded_sequence_elements (l : list Z) step fl fr i :
  0 < step -> 0 <= fl -> 0 <= fr -> 0 <= i < Py.len l ->
  exists s,
    padded_sequence step fl fr l i = Ok s /\
    Py.len s = fl + fr + 1 /\
    forall k, 0 <= k <= fl + fr ->
      nth_error s (Z.to_nat k)
      = nth_error l (Z.to_nat (clamp (Py.len l) (i + (k - fl) * step))).
Proof.
  intros Hs Hfl Hfr Hi.
  destruct (padded_sequence_length l step fl fr i Hs Hfl Hfr Hi)
    as (s & Es & Hlen).
  exists s. split; [exact Es|]. split; [exact Hlen|].
  unfold padded_sequence in Es.
  replace (step =? 0) with false in Es by (symmetry; apply Z.eqb_neq; lia).
  destruct (Py.getitem l 0) as [first|] eqn:Ef; simpl in Es; [|discriminate].
  rewrite slice_nonzero in Es by lia. simpl in Es.
  destruct (Py.getitem l (-1)) as [last|] eqn:El; simpl in Es; [|discriminate].
  injection Es as <-.
  apply getitem_zero_nth in Ef. apply getitem_last_nth in El.
  set (n := Py.len l) in *.
  set (start := Z.max (i mod step) (i - fl * step)) in *.
  set (stop := Z.min (n - (n - 1 - i) mod step) (i + fr * step + 1)) in *.
  pose proof (Z.div_mod i step ltac:(lia)) as Ei.
  pose proof (Z.mod_pos_bound i step Hs) as Bi.
  pose proof (Z.div_mod (n - 1 - i) step ltac:(lia)) as Er.
  pose proof (Z.mod_pos_bound (n - 1 - i) step Hs) as Br.
  assert (Hqi : 0 <= i / step) by (apply Z.div_pos; lia).
  assert (Hqr : 0 <= (n - 1 - i) / step) by (apply Z.div_pos; lia).
  set (L := Z.min fl (i / step)).
  set (R := Z.min fr ((n - 1 - i) / step)).
  assert (Hstart : start = i - L * step) by (unfold start, L; nia).
  assert (Hstop : stop = i + R * step + 1) by (unfold stop, R; nia).
  assert (HL : 0 <= L <= i / step) by (unfold L; lia).
  assert (HR : 0 <= R <= (n - 1 - i) / step) by (unfold R; lia).
  destruct (slice_elems_forward l start stop step) as (_ & Hwlen & Hwnth);
    try nia.
  fold n in Hwlen, Hwnth.
  rewrite !Z.min_l in Hwlen, Hwnth by nia.
  assert (Hcount : Py.range_len start stop step = L + R + 1).
  { unfold Py.range_len.
    replace (0 <? step) with true by (symmetry; apply Z.ltb_lt; lia).
    replace (start <? stop) with true by (symmetry; apply Z.ltb_lt; nia).
    replace (stop - start - 1) with ((L + R) * step) by nia.
    rewrite Z.div_mul by lia. reflexivity. }
  rewrite Hcount in Hwlen, Hwnth.
  set (w := slice_elems l start stop step) in *.
  unfold Py.repeat_list.
  replace (Z.max 0 (fl - i / step)) with (fl - L) by (unfold L; lia).
  replace (Z.max 0 (fr - (n - 1 - i) / step)) with (fr - R)
    by (unfold R; lia).
  intros k Hk. unfold clamp.
  destruct (Z_lt_le_dec k (fl - L)) as [Hlow|Hlow].
  - (* left padding *)
    rewrite nth_error_app1 by (rewrite repeat_length; lia).
    rewrite nth_error_repeat by lia.
    assert (L = i / step) by (unfold L in *; lia).
    replace (Z.max 0 (Z.min (n - 1) (i + (k - fl) * step))) with 0 by nia.
    exact (eq_sym Ef).
  - rewrite nth_error_app2 by (rewrite repeat_length; lia).
    rewrite repeat_length.
    destruct (Z_le_gt_dec k (fl + R)) as [Hmid|Hhigh].
    + (* inside the video *)
      rewrite nth_error_app1 by lia.
      rewrite Hwnth by lia. f_equal.
      replace (Z.max 0 (Z.min (n - 1) (i + (k - fl) * step)))
        with (i + (k - fl) * step) by nia.
      rewrite Nat2Z.inj_sub, !Z2Nat.id by lia. f_equal. nia.
    + (* right padding *)
      rewrite nth_error_app2 by lia.
      rewrite nth_error_repeat by lia.
      assert (R = (n - 1 - i) / step) by (unfold R in *; lia).
      replace (Z.max 0 (Z.min (n - 1) (i + (k - fl) * step))) with (n - 1)
        by nia.
      exact (eq_sym El).
Qed.

Lemma Forall2_nth_l {A B} (R : A -> B -> Prop) xs ys i x :
  Forall2 R xs ys -> nth_error xs i = Some x ->
  exists y, nth_error ys i = Some y /\ R x y.
Proof.
  intros H. revert i. induction H as [|a b xs ys Hab _ IH]; intros i Hi.
  - destruct i; discriminate.
  - destruct i as [|i]; simpl in *.
    + injection Hi as <-. now exists b.
    + now apply IH.
Qed.

Lemma range_nth n i :
  0 <= i < n -> nth_error (Py.range n) (Z.to_nat i) = Some i.
Proof.
  intros Hi. unfold Py.range. rewrite range3_nth.
  - f_equal. lia.
  - rewrite range_len_unit. lia.
Qed.

(** The sequence built for frame [i] of a padded video. *)
Lemma seqs_padded_nth cfg (l : list Z) i :
  multiple_target cfg = 0 -> pad_video_seq cfg = true ->
  1 <= seq_len cfg -> 1 <= seq_step cfg -> 0 <= i < Py.len l ->
  exists seqs s,
    seqs_from_video cfg l = Ok seqs /\
    Py.len seqs = Py.len l /\
    nth_error seqs (Z.to_nat i) = Some s /\
    padded_sequence (seq_step cfg)
      (if causal cfg then seq_len cfg - 1 else (seq_len cfg - 1) / 2)
      (if causal cfg then 0 else (seq_len cfg - 1) / 2) l i = Ok s.
Proof.
  intros Hm Hp Hlen Hstep Hi.
  destruct (seqs_padded_lengths cfg l Hlen Hstep) as (seqs & E & Hn & _).
  unfold seqs_from_video. rewrite Hm, Hp. simpl.
  pose proof E as E'. unfold seqs_padded in E'. apply mapM_ok in E'.
  destruct (Forall2_nth_l _ _ _ _ _ E' (range_nth (Py.len l) i Hi))
    as (s & Hs & Hps).
  exists seqs, s. split; [exact E|]. split; [exact Hn|]. split; [exact Hs|].
  destruct (causal cfg); exact Hps.
Qed.

(** X1.  A padded video gives one sequence per frame.  The sequence of frame
    [i] takes the frames at offsets [(k - frames_left) * seq_step] around
    [i]; an offset that leaves the video on the left gives the first frame,
    one that leaves it on the right gives the last frame. *)
Theorem padded_sequences_replicate_edges cfg (_indices : list Z) i :
  multiple_target cfg = 0 -> pad_video_seq cfg = true ->
  1 <= seq_len cfg -> 1 <= seq_step cfg -> 0 <= i < Py.len _indices ->
  let frames_left :=
    if causal cfg then seq_len cfg - 1 else (seq_len cfg - 1) / 2 in
  let frames_right := if causal cfg then 0 else (seq_len cfg - 1) / 2 in
  exists seqs s,
    seqs_from_video cfg _indices = Ok seqs /\
    Py.len seqs = Py.len _indices /\
    nth_error seqs (Z.to_nat i) = Some s /\
    Py.len s = frames_left + frames_right + 1 /\
    forall k, 0 <= k <= frames_left + frames_right ->
      nth_error s (Z.to_nat k)
      = nth_error _indices
          (Z.to_nat (clamp (Py.len _indices)
                           (i + (k - frames_left) * seq_step cfg))).
Proof.
  intros Hm Hp Hlen Hstep Hi fl fr.
  destruct (seqs_padded_nth cfg _indices i Hm Hp Hlen Hstep Hi)
    as (seqs & s & E & Hn & Hs & Hps).
  fold fl fr in Hps.
  assert (Hfl : 0 <= fl)
    by (unfold fl; destruct (causal cfg); [lia | apply Z.div_pos; lia]).
  assert (Hfr : 0 <= fr)
    by (unfold fr; destruct (causal cfg); [lia | apply Z.div_pos; lia]).
  destruct (padded_sequence_elements _indices (seq_step cfg) fl fr i)
    as (s' & Es' & Hl & Hk); try lia.
  rewrite Hps in Es'. injection Es' as <-.
  exists seqs, s. auto.
Qed.

Lemma padded_sequences_replicate_edges_witness :
  exists seqs s,
    seqs_from_video
      {| seq_len := 3; seq_step := 2; multiple_target := 0;
         pad_video_seq := true; causal := false; subset_frac := Py.float_one |}
      [10; 11; 12; 13] = Ok seqs /\
    nth_error seqs 2 = Some s /\
    nth_error s 2 = Some 13.
Proof.
  destruct (padded_sequences_replicate_edges
              {| seq_len := 3; seq_step := 2; multiple_target := 0;
                 pad_video_seq := true; causal := false; subset_frac := Py.float_one |}
              [10; 11; 12; 13] 2)
    as (seqs & s & E & _ & Hs & _ & Hk);
    try reflexivity; try (unfold Py.len; simpl; lia).
  exists seqs, s. split; [exact E|]. split; [exact Hs|].
  apply (Hk 2). simpl. lia.
Defined.

(** X2.  In the sequence of frame [i] of a padded video the frame [i]
    itself is the rightmost element when [causal] is set, and the middle
    element otherwise. *)
Theorem padded_sequence_target_frame cfg (_indices : list Z) i :
  multiple_target cfg = 0 -> pad_video_seq cfg = true ->
  1 <= seq_len cfg -> 1 <= seq_step cfg -> 0 <= i < Py.len _indices ->
  exists seqs s,
    seqs_from_video cfg _indices = Ok seqs /\
    nth_error seqs (Z.to_nat i) = Some s /\
    if causal cfg then
      Py.getitem s (-1) = Py.getitem _indices i
    else
      Py.len s = 2 * ((seq_len cfg - 1) / 2) + 1 /\
      Py.getitem s ((seq_len cfg - 1) / 2) = Py.getitem _indices i.
Proof.
  intros Hm Hp Hlen Hstep Hi.
  destruct (seqs_padded_nth cfg _indices i Hm Hp Hlen Hstep Hi)
    as (seqs & s & E & _ & Hs & Hps).
  exists seqs, s. split; [exact E|]. split; [exact Hs|].
  assert (Hh : 0 <= (seq_len cfg - 1) / 2) by (apply Z.div_pos; lia).
  assert (Hget : forall (l : list Z) p, 0 <= p ->
             Py.getitem l p
             = match nth_error l (Z.to_nat p) with
               | Some x => Ok x
               | None => Err IndexError
               end).
  { intros l p Hp0. unfold Py.getitem.
    replace (p <? 0) with false by (symmetry; apply Z.ltb_ge; lia).
    now replace (p <? 0) with false by (symmetry; apply Z.ltb_ge; lia). }
  destruct (causal cfg).
  - destruct (padded_sequence_elements _indices (seq_step cfg)
                (seq_len cfg - 1) 0 i) as (s' & Es' & Hl & Hk); try lia.
    rewrite Hps in Es'. injection Es' as <-.
    specialize (Hk (seq_len cfg - 1) ltac:(lia)).
    replace (i + (seq_len cfg - 1 - (seq_len cfg - 1)) * seq_step cfg)
      with i in Hk by lia.
    replace (clamp (Py.len _indices) i) with i in Hk
      by (unfold clamp; lia).
    rewrite (Hget _indices i) by lia. rewrite <- Hk.
    unfold Py.getitem. change (-1 <? 0) with true. cbv iota.
    replace (-1 + Py.len s <? 0) with false
      by (symmetry; apply Z.ltb_ge; lia).
    now replace (-1 + Py.len s) with (seq_len cfg - 1) by lia.
  - destruct (padded_sequence_elements _indices (seq_step cfg)
                ((seq_len cfg - 1) / 2) ((seq_len cfg - 1) / 2) i)
      as (s' & Es' & Hl & Hk); try lia.
    rewrite Hps in Es'. injection Es' as <-.
    split; [lia|].
    specialize (Hk ((seq_len cfg - 1) / 2) ltac:(lia)).
    replace (i + ((seq_len cfg - 1) / 2 - (seq_len cfg - 1) / 2)
                 * seq_step cfg) with i in Hk by lia.
    replace (clamp (Py.len _indices) i) with i in Hk
      by (unfold clamp; lia).
    rewrite (Hget _indices i), (Hget s) by lia. now rewrite Hk.
Qed.

Lemma padded_sequence_target_frame_witness :
  exists seqs s,
    seqs_from_video
      {| seq_len := 3; seq_step := 1; multiple_target := 0;
         pad_video_seq := true; causal := true; subset_frac := Py.float_one |}
      [10; 11; 12; 13] = Ok seqs /\
    nth_error seqs 1 = Some s /\
    Py.getitem s (-1) = Ok 11.
Proof.
  apply (padded_sequence_target_frame
           {| seq_len := 3; seq_step := 1; multiple_target := 0;
              pad_video_seq := true; causal := true; subset_frac := Py.float_one |}
           [10; 11; 12; 13] 1); try reflexivity; unfold Py.len; simpl; lia.
Defined.

(** ** The contents of a sliding window *)

(** X3.  Without merging and padding, the [i]-th sequence of a video is the
    window that starts at frame [i]: it has exactly [seq_len] elements, the
    [j]-th being the frame at position [i + j * seq_step]. *)
Theorem sliding_window_contents cfg (_indices : list Z) i :
  multiple_target cfg = 0 -> pad_video_seq cfg = false ->
  1 <= seq_len cfg -> 1 <= seq_step cfg ->
  0 <= i <= Py.len _indices - ((seq_len cfg - 1) * seq_step cfg + 1) ->
  exists seqs s,
    seqs_from_video cfg _indices = Ok seqs /\
    nth_error seqs (Z.to_nat i) = Some s /\
    Py.len s = seq_len cfg /\
    forall j, 0 <= j < seq_len cfg ->
      nth_error s (Z.to_nat j)
      = nth_error _indices (Z.to_nat (i + j * seq_step cfg)).
Proof.
  intros Hm Hp Hlen Hstep Hi.
  rewrite seqs_from_video_sliding by assumption.
  rewrite seqs_sliding_eq by lia.
  set (step := seq_step cfg) in *. set (n := Py.len _indices) in *.
  set (_len := (seq_len cfg - 1) * step + 1) in *.
  exists (map (fun i0 => slice_elems _indices i0 (i0 + _len) step)
              (Py.range3 0 (n - _len + 1) 1)),
         (slice_elems _indices i (i + _len) step).
  split; [reflexivity|]. split.
  - rewrite nth_error_map.
    fold (Py.range (n - _len + 1)). rewrite range_nth by lia. reflexivity.
  - destruct (slice_elems_forward _indices i (i + _len) step)
      as (_ & Hl & Hj); try nia.
    fold n in Hl, Hj. rewrite !Z.min_l in Hl, Hj by nia.
    assert (Hc : Py.range_len i (i + _len) step = seq_len cfg).
    { rewrite range_len_shift. unfold Py.range_len, _len.
      replace (0 <? step) with true by (symmetry; apply Z.ltb_lt; lia).
      replace (0 <? (seq_len cfg - 1) * step + 1) with true
        by (symmetry; apply Z.ltb_lt; nia).
      replace ((seq_len cfg - 1) * step + 1 - 0 - 1)
        with ((seq_len cfg - 1) * step) by lia.
      rewrite Z.div_mul by lia. lia. }
    rewrite Hc in Hl, Hj. split.
    + unfold Py.len. rewrite Hl. lia.
    + intros j Hj0. rewrite Hj by lia. now rewrite Z2Nat.id by lia.
Qed.

Lemma sliding_window_contents_witness :
  exists seqs s,
    seqs_from_video
      {| seq_len := 2; seq_step := 2; multiple_target := 0;
         pad_video_seq := false; causal := true; subset_frac := Py.float_one |}
      [10; 11; 12; 13] = Ok seqs /\
    nth_error seqs 1 = Some s /\
    Py.len s = 2 /\
    nth_error s 1 = Some 13.
Proof.
  destruct (sliding_window_contents
              {| seq_len := 2; seq_step := 2; multiple_target := 0;
                 pad_video_seq := false; causal := true; subset_frac := Py.float_one |}
              [10; 11; 12; 13] 1)
    as (seqs & s & E & Hs & Hl & Hj);
    try reflexivity; try (unfold Py.len; simpl; lia).
  exists seqs, s. repeat split; try assumption.
  apply (Hj 1). simpl. lia.
Defined.

(** ** The frame groups partition the table *)

Lemma key_eqb_refl k : key_eqb k k = true.
Proof.
  destruct k as [[s a] c]. unfold key_eqb. now rewrite !String.eqb_refl.
Qed.

Lemma dict_append_keys vf key idx :
  map fst (dict_append vf key idx)
  = if existsb (fun k => key_eqb k key) (map fst vf) then map fst vf
    else map fst vf ++ [key].
Proof.
  induction vf as [|[k l] vf IH]; simpl; [reflexivity|].
  destruct (key_eqb k key) eqn:E; simpl; [reflexivity|].
  rewrite IH. now destruct (existsb _ _).
Qed.

Lemma dict_append_NoDup vf key idx :
  NoDup (map fst vf) -> NoDup (map fst (dict_append vf key idx)).
Proof.
  intros H. rewrite dict_append_keys.
  destruct (existsb (fun k => key_eqb k key) (map fst vf)) eqn:E; [exact H|].
  apply NoDup_app; [exact H | repeat constructor; intros [] |].
  intros k Hk [Heq|[]]. subst k.
  assert (existsb (fun k0 => key_eqb k0 key) (map fst vf) = true);
    [|congruence].
  apply existsb_exists. exists key. split; [exact Hk | apply key_eqb_refl].
Qed.

Lemma dict_append_frames vf key idx :
  Permutation (List.concat (map snd (dict_append vf key idx)))
              (idx :: List.concat (map snd vf)).
Proof.
  induction vf as [|[k l] vf IH]; simpl; [reflexivity|].
  destruct (key_eqb k key); simpl.
  - rewrite <- app_assoc. simpl. symmetry. apply Permutation_middle.
  - rewrite IH. symmetry. apply Permutation_middle.
Qed.

Lemma group_frames_partition :
  forall rest idx vf vf',
    group_frames rest idx vf = Ok vf' ->
    NoDup (map fst vf) ->
    NoDup (map fst vf') /\
    Permutation (List.concat (map snd vf'))
                (map (fun k => idx + Z.of_nat k) (seq 0 (List.length rest))
                 ++ List.concat (map snd vf)).
Proof.
  induction rest as [|name rest IH]; intros idx vf vf' H Hnd; simpl in H.
  - injection H as <-. split; [exact Hnd | reflexivity].
  - destruct (_parse_h36m_imgname name) as [key|]; simpl in H; [|discriminate].
    destruct (IH _ _ _ H (dict_append_NoDup vf key idx Hnd)) as [Hk Hp].
    split; [exact Hk|]. rewrite Hp, dict_append_frames.
    cbn [List.length seq map]. rewrite <- seq_shift, map_map.
    replace (idx + Z.of_nat 0) with idx by lia.
    rewrite (map_ext (fun k => idx + 1 + Z.of_nat k)
                     (fun k => idx + Z.of_nat (S k))) by (intros; lia).
    symmetry. apply Permutation_middle.
Qed.

(** X4.  The frame groups partition the rows of the table: the keys of the
    groups are pairwise distinct, every group is a non-empty, increasing
    list of rows whose image names parse to the group's key, and together
    the groups hold every row index [0 .. N-1] exactly once. *)
Theorem frame_groups_partition_the_table imgnames video_frames :
  group_frames imgnames 0 [] = Ok video_frames ->
  NoDup (map fst video_frames) /\
  Permutation (List.concat (map snd video_frames))
              (Py.range (Py.len imgnames)) /\
  Forall (fun item =>
            snd item <> [] /\
            StronglySorted Z.lt (snd item) /\
            Forall (fun idx =>
                      exists name,
                        nth_error imgnames (Z.to_nat idx) = Some name /\
                        _parse_h36m_imgname name = Ok (fst item))
                   (snd item)) video_frames.
Proof.
  intros H.
  destruct (group_frames_partition imgnames 0 [] video_frames H) as [Hk Hp];
    [constructor|].
  split; [exact Hk|]. split.
  - rewrite Hp. simpl. rewrite app_nil_r.
    unfold Py.range, Py.range3.
    rewrite range_len_unit, Z.max_r by apply len_nonneg.
    unfold Py.len. rewrite Nat2Z.id.
    rewrite (map_ext (fun k => 0 + Z.of_nat k) (fun k => 0 + Z.of_nat k * 1))
      by (intros; lia).
    reflexivity.
  - pose proof (group_frames_grouped imgnames imgnames [] [] video_frames
                  eq_refl (Forall_nil _) H) as Hg.
    assert (Hne : Forall (fun item : VideoKey * list Z => snd item <> [])
                         video_frames).
    { apply Forall_forall. intros [k l] Hin Hl. simpl in Hl. subst l.
      (* an empty group would leave the partition one key short of rows *)
      clear Hg Hp Hk. revert Hin.
      assert (Hall : forall rest idx vf vf',
                 group_frames rest idx vf = Ok vf' ->
                 Forall (fun item : VideoKey * list Z => snd item <> []) vf ->
                 Forall (fun item : VideoKey * list Z => snd item <> []) vf').
      { induction rest as [|name rest IH]; intros idx vf vf' Hr Hf;
          simpl in Hr.
        - now injection Hr as <-.
        - destruct (_parse_h36m_imgname name) as [key|]; simpl in Hr;
            [|discriminate].
          apply (IH _ _ _ Hr). clear Hr IH.
          induction Hf as [|[k' l'] vf Hx Hf IHf]; simpl.
          + constructor; [discriminate | constructor].
          + destruct (key_eqb k' key); constructor; auto; simpl.
            destruct l'; discriminate. }
      intros Hin. pose proof (Hall _ _ _ _ H (Forall_nil _)) as Hf.
      rewrite Forall_forall in Hf. exact (Hf _ Hin eq_refl). }
    unfold grouped in Hg. rewrite Forall_forall in *.
    intros item Hin. destruct (Hg item Hin) as [[Hs Hf] _].
    split; [exact (Hne item Hin)|]. split; [exact Hs|].
    eapply Forall_impl; [|exact Hf]. intros idx [_ Hn]. exact Hn.
Qed.

Lemma frame_groups_partition_the_table_witness :
  Permutation
    (List.concat
       (map snd
            [(("S1", "Walk", "1"), [0; 2]); (("S1", "Eat", "2"), [1])]%string))
    (Py.range 3).
Proof.
  apply (frame_groups_partition_the_table
           ["S1_Walk.1_00.jpg"; "S1_Eat.2_00.jpg"; "S1_Walk.1_01.jpg"]%string
           [(("S1", "Walk", "1"), [0; 2]); (("S1", "Eat", "2"), [1])]%string).
  reflexivity.
Defined.

(** ** One sequence per frame *)

Lemma group_frames_total imgnames idx vf :
  Forall (fun name => delimited (Py.basename name)) imgnames ->
  exists vf', group_frames imgnames idx vf = Ok vf'.
Proof.
  intros H. revert idx vf.
  induction H as [|name rest Hn _ IH]; intros idx vf; simpl.
  - now exists vf.
  - destruct (parse_delimited name Hn) as [key ->]. simpl. apply IH.
Qed.

Lemma group_frames_nonempty :
  forall rest idx vf vf',
    group_frames rest idx vf = Ok vf' ->
    Forall (fun item : VideoKey * list Z => snd item <> []) vf ->
    Forall (fun item : VideoKey * list Z => snd item <> []) vf'.
Proof.
  induction rest as [|name rest IH]; intros idx vf vf' Hr Hf; simpl in Hr.
  - now injection Hr as <-.
  - destruct (_parse_h36m_imgname name) as [key|]; simpl in Hr; [|discriminate].
    apply (IH _ _ _ Hr). clear Hr IH.
    induction Hf as [|[k' l'] vf Hx Hf IHf]; simpl.
    + constructor; [discriminate | constructor].
    + destruct (key_eqb k' key); constructor; auto; simpl.
      destruct l'; discriminate.
Qed.

(** The table-wide count, for a per-video function that never raises on a
    non-empty video. *)
Lemma build_total cfg imgnames (g : list Z -> Z) :
  Forall (fun name => delimited (Py.basename name)) imgnames ->
  (forall l, l <> [] ->
     exists seqs, seqs_from_video cfg l = Ok seqs /\ Py.len seqs = g l) ->
  exists video_frames all,
    group_frames imgnames 0 [] = Ok video_frames /\
    build_sequence_indices cfg imgnames = Ok all /\
    Py.len all = zsum (map (fun item => g (snd item)) video_frames).
Proof.
  intros Hnames Hg.
  destruct (group_frames_total imgnames 0 [] Hnames) as [vf Evf].
  pose proof (group_frames_nonempty _ _ _ _ Evf (Forall_nil _)) as Hne.
  assert (Hne' : Forall (fun l : list Z => l <> []) (map snd (sorted_items vf))).
  { apply Forall_forall. intros l Hl.
    apply in_map_iff in Hl as (item & <- & Hin).
    apply sorted_items_In in Hin. rewrite Forall_forall in Hne. auto. }
  destruct (mapM_total (seqs_from_video cfg) (fun l => l <> [])
              (map snd (sorted_items vf))) as [pv Epv]; [|exact Hne'|].
  { intros l Hl. destruct (Hg l Hl) as (seqs & E & _). now exists seqs. }
  exists vf, (List.concat pv).
  split; [exact Evf|]. split.
  - unfold build_sequence_indices. rewrite Evf. simpl. now rewrite Epv.
  - rewrite len_concat. apply mapM_ok in Epv.
    assert (Hlen : map Py.len pv = map g (map snd (sorted_items vf))).
    { clear Evf Hne. induction Epv as [|l seqs ls pv' Hl _ IH]; simpl;
        [reflexivity|].
      inversion Hne' as [|? ? Hl0 Hrest]; subst.
      destruct (Hg l Hl0) as (seqs' & E & Hc).
      rewrite IH by assumption. f_equal. congruence. }
    rewrite Hlen, map_map.
    apply zsum_perm, Permutation_map, sorted_items_perm.
Qed.

Lemma padded_sequence_ok (l : list Z) step fl fr i :
  step <> 0 -> l <> [] -> exists s, padded_sequence step fl fr l i = Ok s.
Proof.
  intros Hs Hl. unfold padded_sequence.
  replace (step =? 0) with false by (symmetry; now apply Z.eqb_neq).
  assert (Hn : 0 < Py.len l) by (destruct l; [congruence | unfold Py.len; simpl; lia]).
  destruct (getitem_first_ok l Hn) as [first ->].
  destruct (getitem_last_ok l Hn) as [last ->].
  rewrite slice_nonzero by exact Hs. simpl. eauto.
Qed.

Lemma seqs_padded_count cfg (l : list Z) :
  seq_step cfg <> 0 -> l <> [] ->
  exists seqs, seqs_padded cfg l = Ok seqs /\ Py.len seqs = Py.len l.
Proof.
  intros Hs Hl. unfold seqs_padded.
  destruct (mapM_total
              (padded_sequence (seq_step cfg)
                 (if causal cfg then seq_len cfg - 1 else (seq_len cfg - 1) / 2)
                 (if causal cfg then 0
                  else if causal cfg then seq_len cfg - 1
                       else (seq_len cfg - 1) / 2) l)
              (fun _ => True) (Py.range (Py.len l))) as [seqs E].
  - intros i _. now apply padded_sequence_ok.
  - apply Forall_forall. auto.
  - exists seqs. split; [exact E|].
    apply mapM_ok in E. apply Forall2_length in E.
    unfold Py.len at 1. rewrite <- E.
    fold (Py.len (Py.range (Py.len l))). unfold Py.range.
    rewrite range3_length, range_len_unit.
    pose proof (len_nonneg l). lia.
Qed.

(** X5.  With padding on (and no subset taken) the dataset has exactly one
    sequence per row of the annotation table, whatever [seq_len] and the
    non-zero [seq_step] are: every frame is predicted.  (The table has fewer
    than [2^53] rows, so that [int(total * 1.0)] is [total].) *)
Theorem padded_dataset_one_sequence_per_frame cfg imgnames draw :
  Forall (fun name => delimited (Py.basename name)) imgnames ->
  multiple_target cfg = 0 -> pad_video_seq cfg = true ->
  seq_step cfg <> 0 -> subset_frac cfg = Py.float_one ->
  Py.len imgnames < 2 ^ 53 ->
  exists seqs,
    get_sequence_indices cfg imgnames draw = Ok seqs /\
    Py.len seqs = Py.len imgnames.
Proof.
  intros Hnames Hm Hp Hs Hq Hrows.
  destruct (build_total cfg imgnames (@Py.len Z) Hnames)
    as (vf & all & Evf & Eb & Hl).
  { intros l Hl. unfold seqs_from_video. rewrite Hm, Hp. simpl.
    now apply seqs_padded_count. }
  assert (Hall : Py.len all = Py.len imgnames).
  { rewrite Hl.
    destruct (group_frames_partition imgnames 0 [] vf Evf) as [_ Hperm];
      [constructor|].
    rewrite <- (map_map snd (@Py.len Z)), <- len_concat.
    unfold Py.len. rewrite (Permutation_length Hperm).
    simpl. now rewrite app_nil_r, length_map, length_seq. }
  exists all. split; [|exact Hall].
  unfold get_sequence_indices. rewrite Eb, Hq. simpl.
  apply take_subset_whole. lia.
Qed.

Lemma padded_dataset_one_sequence_per_frame_witness :
  exists seqs,
    get_sequence_indices
      {| seq_len := 4; seq_step := 3; multiple_target := 0;
         pad_video_seq := true; causal := false; subset_frac := Py.float_one |}
      ["a/S1_Walk.1_00.jpg"; "S1_Eat.2_00.jpg"; "S1_Walk.1_01.jpg"]%string 0
    = Ok seqs /\
    Py.len seqs = 3.
Proof.
  apply (padded_dataset_one_sequence_per_frame
           {| seq_len := 4; seq_step := 3; multiple_target := 0;
              pad_video_seq := true; causal := false; subset_frac := Py.float_one |}
           ["a/S1_Walk.1_00.jpg"; "S1_Eat.2_00.jpg"; "S1_Walk.1_01.jpg"]%string
           0); try reflexivity; try discriminate.
  repeat constructor.
  - now exists "S1"%string, "Walk"%string, "1"%string, "00.jpg"%string.
  - now exists "S1"%string, "Eat"%string, "2"%string, "00.jpg"%string.
  - now exists "S1"%string, "Walk"%string, "1"%string, "01.jpg"%string.
Defined.

(** ** Configurations the constructor does not validate *)

Lemma range3_cons start stop step :
  0 < Py.range_len start stop step ->
  exists tl, Py.range3 start stop step = start :: tl.
Proof.
  intros H. unfold Py.range3.
  destruct (Z.to_nat (Py.range_len start stop step)) as [|k] eqn:E; [lia|].
  simpl. eexists. f_equal. lia.
Qed.

Lemma mapM_first_err {A B} (f : A -> result B) x xs e :
  f x = Err e -> mapM f (x :: xs) = Err e.
Proof. intros H. simpl. now rewrite H. Qed.

Lemma seqs_from_video_zero_step cfg (l : list Z) :
  seq_step cfg = 0 -> 0 <= multiple_target cfg -> l <> [] ->
  seqs_from_video cfg l
  = Err (if (multiple_target cfg =? 0) && pad_video_seq cfg
         then ZeroDivisionError else SliceStepZero).
Proof.
  intros Hs Hm Hl.
  assert (Hn : 0 < Py.len l)
    by (destruct l; [congruence | unfold Py.len; simpl; lia]).
  unfold seqs_from_video.
  destruct (multiple_target cfg =? 0) eqn:Em; simpl.
  - destruct (pad_video_seq cfg).
    + unfold seqs_padded, Py.range.
      destruct (range3_cons 0 (Py.len l) 1) as [tl ->];
        [rewrite range_len_unit; lia|].
      apply mapM_first_err. unfold padded_sequence. now rewrite Hs.
    + unfold seqs_sliding. rewrite Hs, Z.mul_0_r. simpl (0 + 1).
      destruct (range3_cons 0 (Py.len l - 1 + 1) 1) as [tl ->];
        [rewrite range_len_unit; lia|].
      simpl. reflexivity.
  - apply Z.eqb_neq in Em. unfold seqs_multiple_target.
    destruct (range3_cons 0 (Py.len l) (multiple_target cfg)) as [tl ->].
    + unfold Py.range_len.
      replace (0 <? multiple_target cfg) with true
        by (symmetry; apply Z.ltb_lt; lia).
      replace (0 <? Py.len l) with true by (symmetry; apply Z.ltb_lt; lia).
      assert (0 <= (Py.len l - 0 - 1) / multiple_target cfg)
        by (apply Z.div_pos; lia).
      lia.
    + rewrite Hs. simpl. reflexivity.
Qed.

(** X6.  A zero [seq_step] is not rejected by the constructor; on any
    non-empty table it makes [get_sequence_indices] raise, a
    [ZeroDivisionError] on the padded path and the [ValueError] of a
    zero-step slice on the other two. *)
Theorem zero_seq_step_raises cfg imgnames draw :
  imgnames <> [] ->
  Forall (fun name => delimited (Py.basename name)) imgnames ->
  seq_step cfg = 0 -> 0 <= multiple_target cfg ->
  get_sequence_indices cfg imgnames draw
  = Err (if (multiple_target cfg =? 0) && pad_video_seq cfg
         then ZeroDivisionError else SliceStepZero).
Proof.
  intros Hne Hnames Hs Hm.
  destruct (group_frames_total imgnames 0 [] Hnames) as [vf Evf].
  pose proof (group_frames_nonempty _ _ _ _ Evf (Forall_nil _)) as Hgne.
  destruct (group_frames_partition imgnames 0 [] vf Evf) as [_ Hperm];
    [constructor|].
  assert (Hvf : sorted_items vf <> []).
  { intros E. pose proof (Permutation_length (sorted_items_perm vf)) as Hl.
    rewrite E in Hl. destruct vf; [|discriminate].
    apply Permutation_length in Hperm. simpl in Hperm.
    rewrite app_nil_r, length_map, length_seq in Hperm.
    destruct imgnames; [congruence | discriminate]. }
  unfold get_sequence_indices, build_sequence_indices. rewrite Evf. simpl.
  destruct (sorted_items vf) as [|v rest] eqn:Es; [congruence|].
  assert (Hv : snd v <> []).
  { rewrite Forall_forall in Hgne. apply Hgne, sorted_items_In.
    rewrite Es. now left. }
  simpl map. rewrite (mapM_first_err _ _ _ _
                        (seqs_from_video_zero_step cfg (snd v) Hs Hm Hv)).
  reflexivity.
Qed.

Lemma zero_seq_step_raises_witness :
  get_sequence_indices
    {| seq_len := 1; seq_step := 0; multiple_target := 0;
       pad_video_seq := true; causal := true; subset_frac := Py.float_one |}
    ["S1_Walk.1_00.jpg"]%string 0
  = Err ZeroDivisionError.
Proof.
  apply (zero_seq_step_raises
           {| seq_len := 1; seq_step := 0; multiple_target := 0;
              pad_video_seq := true; causal := true; subset_frac := Py.float_one |}
           ["S1_Walk.1_00.jpg"]%string 0);
    try discriminate; try reflexivity.
  repeat constructor.
  now exists "S1"%string, "Walk"%string, "1"%string, "00.jpg"%string.
Defined.




(** ** Directories in image names *)

Lemma after_last_slash_none s :
  ~ contains "/" s -> Py.after_last_slash s = None.
Proof.
  induction s as [|c s IH]; intros H; simpl; [reflexivity|].
  rewrite IH.
  - destruct (Ascii.eqb_spec c "/") as [->|_]; [|reflexivity].
    exfalso. apply H. now exists ""%string, s.
  - intros (a & b & ->). apply H. now exists (String c a), b.
Qed.

Lemma after_last_slash_dir d n :
  ~ contains "/" n ->
  Py.after_last_slash (d ++ String "/" n)%string = Some n.
Proof.
  intros H. induction d as [|c d IH]; simpl.
  - now rewrite (after_last_slash_none n H).
  - now rewrite IH.
Qed.

(** X9.  Only the basename of an image name is parsed: a directory prefix,
    with however many components, changes nothing. *)
Theorem parse_ignores_directories dir name :
  ~ contains "/" name ->
  _parse_h36m_imgname (dir ++ String "/" name)%string
  = _parse_h36m_imgname name.
Proof.
  intros H. unfold _parse_h36m_imgname, Py.basename.
  now rewrite (after_last_slash_dir dir name H), (after_last_slash_none name H).
Qed.

Lemma parse_ignores_directories_witness :
  _parse_h36m_imgname
    "S1/S1_Directions_1.54138969/S1_Directions_1.54138969_000001.jpg"
  = _parse_h36m_imgname "S1_Directions_1.54138969_000001.jpg".
Proof.
  apply (parse_ignores_directories "S1/S1_Directions_1.54138969"
           "S1_Directions_1.54138969_000001.jpg").
  intros (a & b & E).
  assert (Hn : Py.after_last_slash "S1_Directions_1.54138969_000001.jpg"
               = None) by reflexivity.
  rewrite E in Hn. clear E.
  induction a as [|c a IH]; simpl in Hn.
  - destruct (Py.after_last_slash b); discriminate.
  - destruct (Py.after_last_slash (a ++ String "/" b)); [discriminate|].
    now apply IH.
Defined.

(** ** The order in which videos are visited *)

Lemma string_compare_trans a b c :
  String.compare a b = Lt -> String.compare b c = Lt -> String.compare a c = Lt.
Proof.
  intros H1 H2.
  apply String_as_OT.cmp_lt in H1. apply String_as_OT.cmp_lt in H2.
  apply String_as_OT.cmp_lt. eapply String_as_OT.lt_trans; eauto.
Qed.

Lemma key_compare_eq k1 k2 : key_compare k1 k2 = Eq -> k1 = k2.
Proof.
  destruct k1 as [[s1 a1] c1], k2 as [[s2 a2] c2]. unfold key_compare.
  destruct (String.compare s1 s2) eqn:E1; try discriminate.
  destruct (String.compare a1 a2) eqn:E2; try discriminate.
  intros E3.
  apply String_as_OT.cmp_eq in E1, E2, E3. now subst.
Qed.

Lemma key_compare_antisym k1 k2 :
  key_compare k1 k2 = CompOpp (key_compare k2 k1).
Proof.
  destruct k1 as [[s1 a1] c1], k2 as [[s2 a2] c2]. unfold key_compare.
  pose proof (String_as_OT.cmp_antisym s1 s2) as Hs.
  pose proof (String_as_OT.cmp_antisym a1 a2) as Ha.
  pose proof (String_as_OT.cmp_antisym c1 c2) as Hc.
  unfold String_as_OT.cmp in Hs, Ha, Hc. rewrite Hs, Ha, Hc.
  destruct (String.compare s2 s1); simpl; try reflexivity.
  destruct (String.compare a2 a1); simpl; reflexivity.
Qed.

Lemma lex_step (x y z : string) (r1 r2 r3 : comparison) :
  (r1 = Lt -> r2 = Lt -> r3 = Lt) ->
  match String.compare x y with Eq => r1 | o => o end = Lt ->
  match String.compare y z with Eq => r2 | o => o end = Lt ->
  match String.compare x z with Eq => r3 | o => o end = Lt.
Proof.
  intros Hr H1 H2.
  destruct (String.compare x y) eqn:E12; try discriminate.
  - apply String_as_OT.cmp_eq in E12. subst y.
    destruct (String.compare x z); try discriminate; auto.
  - destruct (String.compare y z) eqn:E23; try discriminate.
    + apply String_as_OT.cmp_eq in E23. subst z. now rewrite E12.
    + now rewrite (string_compare_trans _ _ _ E12 E23).
Qed.

Lemma key_lt_trans k1 k2 k3 : key_lt k1 k2 -> key_lt k2 k3 -> key_lt k1 k3.
Proof.
  destruct k1 as [[s1 a1] c1], k2 as [[s2 a2] c2], k3 as [[s3 a3] c3].
  unfold key_lt, key_compare.
  apply lex_step. apply lex_step. apply string_compare_trans.
Qed.

Lemma insert_item_sorted x l :
  ~ In (fst x) (map fst l) ->
  StronglySorted key_lt (map fst l) ->
  StronglySorted key_lt (map fst (insert_item x l)).
Proof.
  intros Hx Hl. induction l as [|y l IH]; simpl.
  - repeat constructor.
  - simpl in Hx, Hl. apply StronglySorted_inv in Hl as [Hl Hy].
    unfold key_ltb. destruct (key_compare (fst y) (fst x)) eqn:E; simpl.
    + apply key_compare_eq in E. exfalso. apply Hx. now left.
    + constructor; [apply IH; auto|].
      apply Forall_forall. intros k Hk.
      apply in_map_iff in Hk as (z & <- & Hz).
      apply (Permutation_in _ (insert_item_perm x l)) in Hz as [<-|Hz].
      * exact E.
      * rewrite Forall_forall in Hy. apply Hy. now apply in_map.
    + assert (Hxy : key_lt (fst x) (fst y))
        by (unfold key_lt; rewrite key_compare_antisym, E; reflexivity).
      constructor; [constructor; assumption|].
      constructor; [exact Hxy|].
      eapply Forall_impl; [|exact Hy]. intros k Hk. simpl in Hk.
      eapply key_lt_trans; eauto.
Qed.

Lemma sorted_items_sorted (vf : frames_dict) :
  NoDup (map fst vf) -> StronglySorted key_lt (map fst (sorted_items vf)).
Proof.
  induction vf as [|x l IH]; simpl; intros Hnd; [constructor|].
  apply NoDup_cons_iff in Hnd as [Hx Hnd].
  apply insert_item_sorted; [|now apply IH].
  intros Hin. apply Hx.
  apply in_map_iff in Hin as (z & Ez & Hz). rewrite <- Ez.
  apply in_map. now apply sorted_items_In.
Qed.

(** X10.  The videos are visited in strictly increasing order of their
    (subject, action, camera) key, compared component by component as
    strings, whatever the order of the rows in the table, each video once:
    the list of sequences is the concatenation, in this order, of what the
    videos contribute, and [get_sequence_indices] returns a run of
    consecutive entries of it. *)
Theorem videos_are_visited_in_key_order cfg imgnames full :
  build_sequence_indices cfg imgnames = Ok full ->
  exists video_frames per_video,
    group_frames imgnames 0 [] = Ok video_frames /\
    StronglySorted key_lt (map fst (sorted_items video_frames)) /\
    Permutation (sorted_items video_frames) video_frames /\
    Forall2 (fun _indices seqs => seqs_from_video cfg _indices = Ok seqs)
            (map snd (sorted_items video_frames)) per_video /\
    full = List.concat per_video /\
    forall draw out,
      get_sequence_indices cfg imgnames draw = Ok out ->
      exists a k, out = firstn k (skipn a (List.concat per_video)).
Proof.
  intros Hb. pose proof Hb as Hb'.
  apply build_ok in Hb' as (vf & pv & Hg & Hf & ->).
  exists vf, pv. split; [exact Hg|].
  destruct (group_frames_partition imgnames 0 [] vf Hg) as [Hnd _];
    [constructor|].
  split; [now apply sorted_items_sorted|].
  split; [apply sorted_items_perm|].
  split; [exact Hf|]. split; [reflexivity|].
  intros draw out H. unfold get_sequence_indices in H. rewrite Hb in H.
  simpl in H. apply take_subset_ok in H as (size & start & _ & _ & ->).
  apply slice_elems_run.
Qed.

Lemma videos_are_visited_in_key_order_witness :
  exists video_frames per_video,
    group_frames
      ["S1_Walk.1_00.jpg"; "S1_Eat.2_00.jpg"; "S1_Walk.1_01.jpg"]%string 0 []
    = Ok video_frames /\
    StronglySorted key_lt (map fst (sorted_items video_frames)) /\
    [[1]; [0]; [2]] = List.concat per_video.
Proof.
  destruct (videos_are_visited_in_key_order default_config
              ["S1_Walk.1_00.jpg"; "S1_Eat.2_00.jpg"; "S1_Walk.1_01.jpg"]%string
              [[1]; [0]; [2]])
    as (vf & pv & Hg & Hs & _ & _ & E & _).
  - vm_compute. reflexivity.
  - exists vf, pv. split; [exact Hg|]. split; [exact Hs | exact E].
Defined.

(** * The checkpoint key converter *)

Module Mae2mmclsFacts.

Import Mae2mmcls.
Local Open Scope string_scope.

Lemma prefix_spec old s :
  prefix old s = true <-> exists b, s = old ++ b.
Proof.
  revert s. induction old as [|c old IH]; intros s; simpl.
  - destruct s; split; eauto.
  - destruct s as [|d s]; simpl.
    + split; [discriminate | intros [b H]; discriminate H].
    + destruct (ascii_dec c d) as [->|Hne].
      * rewrite IH. split; intros [b H]; exists b.
        -- now rewrite H.
        -- now injection H.
      * split; [discriminate|]. intros [b H]. injection H as H1 H2.
        congruence.
Qed.

Lemma is_substring_spec old s :
  is_substring old s = true <-> occurs old s.
Proof.
  unfold occurs. induction s as [|c s IH]; cbn [is_substring].
  - rewrite prefix_spec. split.
    + intros [b H]. now exists "", b.
    + intros ([|x a] & b & H); [now exists b | discriminate H].
  - rewrite orb_true_iff, IH, prefix_spec. split.
    + intros [[b H] | (a & b & H)].
      * now exists "", b.
      * exists (String c a), b. simpl. now rewrite H.
    + intros ([|x a] & b & H); simpl in H.
      * left. now exists b.
      * right. injection H as _ H. now exists a, b.
Qed.

Lemma replace_from_absent old new s :
  is_substring old s = false -> replace_from old new s 0 = s.
Proof.
  induction s as [|c s IH]; simpl; [reflexivity|].
  intros H. apply orb_false_iff in H as [H1 H2].
  destruct s as [|d s].
  - simpl in *. destruct old as [|x [|y old]]; simpl in *; try discriminate;
      destruct (ascii_dec x c); try discriminate; reflexivity.
  - rewrite H1. now rewrite IH.
Qed.

Lemma replace_absent old new s :
  is_substring old s = false -> replace old new s = s.
Proof.
  intros H. destruct old as [|c old].
  - destruct s; discriminate H.
  - now apply replace_from_absent.
Qed.

(** X11.  A parameter key in which none of the seven patterns of the
    mapping occurs keeps its name. *)
Theorem keys_without_patterns_are_kept k :
  Forall (fun rule => ~ occurs (fst rule) k) mapping -> rename k = k.
Proof.
  unfold rename, rename_with. generalize mapping.
  induction 1 as [|rule rules Hr _ IH]; simpl; [reflexivity|].
  destruct (is_substring (fst rule) k) eqn:E; [|exact IH].
  apply is_substring_spec in E. contradiction.
Qed.

Lemma keys_without_patterns_are_kept_witness : rename "x" = "x".
Proof.
  apply (keys_without_patterns_are_kept "x").
  repeat constructor; intros H; apply is_substring_spec in H;
    discriminate H.
Defined.

(** X12.  The test [mk in k] changes nothing: renaming a key is the seven
    replacements applied one after the other, in the order of the mapping,
    each to the result of the one before. *)
Theorem rename_is_successive_replace k :
  rename k
  = fold_left (fun k rule => replace (fst rule) (snd rule) k) mapping k.
Proof.
  unfold rename, rename_with. generalize mapping. intros rules.
  revert k. induction rules as [|rule rules IH]; intros k; simpl;
    [reflexivity|].
  destruct (is_substring (fst rule) k) eqn:E; [apply IH|].
  rewrite (replace_absent _ (snd rule) _ E). apply IH.
Qed.

Section Converted.

Context {T : Type}.
Implicit Types (model temp : list (string * T)).

Lemma dict_lookup_set temp k v k' :
  dict_lookup (dict_set temp k v) k'
  = if String.eqb k k' then Some v else dict_lookup temp k'.
Proof.
  induction temp as [|[k0 v0] temp IH]; simpl.
  - reflexivity.
  - destruct (String.eqb_spec k0 k) as [->|Hne]; simpl.
    + destruct (String.eqb k k'); reflexivity.
    + rewrite IH. destruct (String.eqb_spec k0 k') as [->|Hne'];
        [|reflexivity].
      destruct (String.eqb_spec k k') as [->|_]; [congruence | reflexivity].
Qed.

Lemma find_snoc {A} (p : A -> bool) (l : list A) (x : A) :
  find p (l ++ [x])
  = match find p l with
    | Some y => Some y
    | None => if p x then Some x else None
    end.
Proof.
  induction l as [|y l IH]; simpl; [reflexivity|].
  destruct (p y); [reflexivity | exact IH].
Qed.

Lemma fold_convert_lookup model temp out k' :
  dict_lookup (fst (fold_left convert_step model (temp, out))) k'
  = match find (fun item => String.eqb (rename (fst item)) k') (rev model) with
    | Some item => Some (snd item)
    | None => dict_lookup temp k'
    end.
Proof.
  revert temp out. induction model as [|[k v] model IH]; intros temp out.
  - reflexivity.
  - simpl fold_left. rewrite IH. simpl rev. rewrite find_snoc.
    destruct (find _ (rev model)); [reflexivity|].
    rewrite dict_lookup_set. simpl. now destruct (String.eqb (rename k) k').
Qed.

Lemma dict_set_fresh temp k v :
  ~ In k (map fst temp) -> dict_set temp k v = (temp ++ [(k, v)])%list.
Proof.
  induction temp as [|[k0 v0] temp IH]; simpl; intros H; [reflexivity|].
  destruct (String.eqb_spec k0 k) as [->|Hne]; [tauto|].
  rewrite IH; tauto.
Qed.

Lemma fold_convert_fresh model temp out :
  NoDup (map fst temp ++ map (fun item => rename (fst item)) model)%list ->
  fst (fold_left convert_step model (temp, out))
  = (temp ++ map (fun item => (rename (fst item), snd item)) model)%list.
Proof.
  revert temp out. induction model as [|[k v] model IH]; intros temp out H.
  - simpl. now rewrite app_nil_r.
  - simpl fold_left. simpl map in H. rewrite IH.
    + rewrite dict_set_fresh.
      * rewrite <- app_assoc. reflexivity.
      * apply NoDup_remove_2 in H. intros Hin. apply H.
        apply in_or_app. now left.
    + rewrite dict_set_fresh.
      * rewrite map_app, <- app_assoc. exact H.
      * apply NoDup_remove_2 in H. intros Hin. apply H.
        apply in_or_app. now left.
Qed.

Lemma convert_weights_ok (weight : list (string * obj T)) model :
  dict_lookup weight "model" = Some (Dict model) ->
  convert_weights weight
  = inr ({| meta := [];
            state_dict := fst (fold_left convert_step model ([], [])) |},
         snd (fold_left convert_step model ([], []))).
Proof.
  intros H. unfold convert_weights. rewrite H.
  now destruct (fold_left convert_step model ([], [])).
Qed.

(** X13.  Two parameters whose keys are renamed to the same key collide:
    under every key the converted [state_dict] holds the tensor of the last
    parameter of the checkpoint that was renamed to it, and it has a key
    only if some parameter was renamed to it. *)
Theorem converted_lookup_takes_the_last (weight : list (string * obj T))
    model k' :
  dict_lookup weight "model" = Some (Dict model) ->
  exists r out,
    convert_weights weight = inr (r, out) /\
    dict_lookup (state_dict r) k'
    = option_map snd
        (find (fun item => String.eqb (rename (fst item)) k') (rev model)).
Proof.
  intros H. rewrite (convert_weights_ok weight model H).
  eexists. eexists. split; [reflexivity|]. simpl.
  rewrite fold_convert_lookup.
  now destruct (find _ (rev model)).
Qed.

(** X14.  When no two parameters are renamed to the same key, the converted
    [state_dict] holds every parameter of the checkpoint, in the
    checkpoint's order, each tensor under its renamed key; [meta] is empty
    and the other entries of the checkpoint are dropped. *)
Theorem converted_state_dict_without_collision
    (weight : list (string * obj T)) model :
  dict_lookup weight "model" = Some (Dict model) ->
  NoDup (map (fun item => rename (fst item)) model) ->
  exists out,
    convert_weights weight
    = inr ({| meta := [];
              state_dict :=
                map (fun item => (rename (fst item), snd item)) model |},
           out).
Proof.
  intros H Hnd. rewrite (convert_weights_ok weight model H).
  eexists. do 2 f_equal.
  now rewrite (fold_convert_fresh model [] []).
Qed.

End Converted.

Lemma converted_lookup_takes_the_last_witness :
  exists r out,
    convert_weights
      [("epoch", Other 9%nat);
       ("model", Dict [("norm1.w", 1%nat); ("blocks.0", 2%nat);
                       ("ln1.w", 3%nat)])]
    = inr (r, out) /\
    dict_lookup (state_dict r) "ln1.w" = Some 3%nat.
Proof.
  apply (converted_lookup_takes_the_last
           [("epoch", Other 9%nat);
            ("model", Dict [("norm1.w", 1%nat); ("blocks.0", 2%nat);
                            ("ln1.w", 3%nat)])]
           [("norm1.w", 1%nat); ("blocks.0", 2%nat); ("ln1.w", 3%nat)]
           "ln1.w").
  reflexivity.
Defined.

Lemma converted_state_dict_without_collision_witness :
  exists out,
    convert_weights
      [("model", Dict [("blocks.0.norm1.weight", 1%nat);
                       ("blocks.0.mlp.fc1.bias", 2%nat)])]
    = inr ({| meta := [];
              state_dict := [("layers.0.ln1.weight", 1%nat);
                             ("layers.0.ffn.layers.0.0.bias", 2%nat)] |},
           out).
Proof.
  apply (converted_state_dict_without_collision
           [("model", Dict [("blocks.0.norm1.weight", 1%nat);
                            ("blocks.0.mlp.fc1.bias", 2%nat)])]
           [("blocks.0.norm1.weight", 1%nat);
            ("blocks.0.mlp.fc1.bias", 2%nat)]).
  - reflexivity.
  - vm_compute. repeat constructor; simpl; intuition discriminate.
Defined.

End Mae2mmclsFacts.

(** * Loading the annotations *)

Lemma getitem_nonneg {A} (l : list A) i :
  0 <= i ->
  Py.getitem l i
  = match nth_error l (Z.to_nat i) with
    | Some x => Ok x
    | None => Err IndexError
    end.
Proof.
  intros Hi. unfold Py.getitem.
  replace (i <? 0) with false by (symmetry; apply Z.ltb_ge; lia).
  now replace (i <? 0) with false by (symmetry; apply Z.ltb_ge; lia).
Qed.

(** Picking rows that exist. *)
Lemma mapM_getitem {A} (l : list A) ids :
  Forall (fun id => 0 <= id < Py.len l) ids ->
  exists picked,
    mapM (Py.getitem l) ids = Ok picked /\
    Forall2 (fun id x => nth_error l (Z.to_nat id) = Some x) ids picked.
Proof.
  induction 1 as [|id ids Hid _ (picked & E & H2)]; simpl.
  - exists []. split; [reflexivity | constructor].
  - rewrite getitem_nonneg by lia.
    destruct (nth_error l (Z.to_nat id)) as [x|] eqn:Ex.
    + simpl. rewrite E. simpl. exists (x :: picked).
      split; [reflexivity | now constructor].
    + apply nth_error_None in Ex. unfold Py.len in Hid. lia.
Qed.

Lemma list_set_length {A} (l : list A) i x :
  List.length (list_set l i x) = List.length l.
Proof.
  revert i. induction l as [|y l IH]; intros [|i]; simpl; auto.
Qed.

Lemma list_set_nth_eq {A} (l : list A) i x :
  (i < List.length l)%nat -> nth_error (list_set l i x) i = Some x.
Proof.
  revert i. induction l as [|y l IH]; intros [|i] H; simpl in *;
    try lia; [reflexivity | apply IH; lia].
Qed.

Lemma list_set_nth_neq {A} (l : list A) i j x :
  i <> j -> nth_error (list_set l i x) j = nth_error l j.
Proof.
  revert i j. induction l as [|y l IH]; intros [|i] [|j] H; simpl;
    try reflexivity; try congruence.
  apply IH. congruence.
Qed.

Section LoadAnnotationsFacts.

Context {V Fr O : Type}.
Implicit Types (insts : list (instance V Fr O)).

(** The update loop touches the instances [idx], [idx + 1], ... only, one
    per sequence. *)
Lemma update_instances_spec
    (fields : list Z -> result (list (string * field V Fr O))) seqs news :
  Forall2 (fun ids new => fields ids = Ok new) seqs news ->
  forall idx insts,
    (idx + List.length seqs <= List.length insts)%nat ->
    exists insts',
      update_instances V Fr O fields seqs idx insts = Ok insts' /\
      List.length insts' = List.length insts /\
      (forall i, (i < idx)%nat -> nth_error insts' i = nth_error insts i) /\
      (forall t new inst,
          nth_error news t = Some new ->
          nth_error insts (idx + t) = Some inst ->
          nth_error insts' (idx + t) = Some (dict_update inst new)).
Proof.
  induction 1 as [|ids new seqs news Hf _ IH]; intros idx insts Hlen.
  - exists insts. simpl. repeat split; auto.
    intros t new inst Hn. destruct t; discriminate Hn.
  - simpl in *. rewrite Hf. simpl.
    destruct (nth_error insts idx) as [inst0|] eqn:E0;
      [|apply nth_error_None in E0; lia].
    destruct (IH (S idx) (list_set insts idx (dict_update inst0 new)))
      as (insts' & E & Hl & Hlow & Hnew).
    { rewrite list_set_length. lia. }
    exists insts'. split; [exact E|].
    rewrite list_set_length in Hl. split; [exact Hl|]. split.
    + intros i Hi. rewrite Hlow by lia. apply list_set_nth_neq. lia.
    + intros t new' inst Hn Hi. destruct t as [|t]; simpl in Hn.
      * injection Hn as Hn. subst new'. rewrite Nat.add_0_r in Hi |- *.
        rewrite Hi in E0. injection E0 as E0. subst inst0.
        rewrite Hlow by lia. apply list_set_nth_eq. lia.
      * replace (idx + S t)%nat with (S idx + t)%nat in * by lia.
        apply Hnew; [exact Hn|].
        rewrite list_set_nth_neq by lia. exact Hi.
Qed.

Lemma joint_split (j : list V) :
  List.length j = 3%nat -> exists x y c, j = [x; y; c].
Proof.
  destruct j as [|x [|y [|c [|? ?]]]]; try discriminate.
  intros _. now exists x, y, c.
Qed.

Lemma frame_split (frame : list (list V)) :
  Forall (fun j => List.length j = 3%nat) frame ->
  exists vis,
    mapM (fun j => Py.getitem j 2) frame = Ok vis /\
    map (fun j => fst j ++ [snd j]) (combine (map (firstn 2) frame) vis)
    = frame.
Proof.
  induction 1 as [|j frame Hj _ (vis & E & Hr)]; simpl.
  - now exists [].
  - destruct (joint_split j Hj) as (x & y & c & ->).
    change (Py.getitem [x; y; c] 2) with (Ok c). simpl. rewrite E. simpl.
    exists (c :: vis). split; [reflexivity|]. simpl. f_equal. exact Hr.
Qed.

Lemma frames_split (frames : list (list (list V))) :
  Forall (Forall (fun j => List.length j = 3%nat)) frames ->
  exists vis,
    mapM (mapM (fun j => Py.getitem j 2)) frames = Ok vis /\
    rejoin (map (map (firstn 2)) frames) vis = frames.
Proof.
  unfold rejoin.
  induction 1 as [|frame frames Hf _ (vis & E & Hr)]; simpl.
  - now exists [].
  - destruct (frame_split frame Hf) as (v & -> & Hv). simpl. rewrite E. simpl.
    exists (v :: vis). split; [reflexivity|]. simpl. f_equal; assumption.
Qed.

Lemma detection_fields_ok (f32 : V -> V) (kpts_2d : ndarray3 V) ids :
  shape2 kpts_2d = 3 -> well_shaped kpts_2d ->
  Forall (fun id => 0 <= id < Py.len (rows kpts_2d)) ids ->
  exists picked vis,
    Forall2 (fun id frame => nth_error (rows kpts_2d) (Z.to_nat id) = Some frame)
            ids picked /\
    detection_fields V f32 Fr O kpts_2d ids
    = Ok [("keypoints",
           Keypoints (map (map (firstn 2)) (map (map (map f32)) picked)));
          ("keypoints_visible", KeypointsVisible vis)]%string /\
    rejoin (map (map (firstn 2)) (map (map (map f32)) picked)) vis
    = map (map (map f32)) picked.
Proof.
  intros H3 Hw Hids. unfold detection_fields.
  destruct (mapM_getitem (rows kpts_2d) ids Hids) as (picked & -> & Hp).
  simpl.
  assert (Hj : Forall (Forall (fun j : list V => List.length j = 3%nat))
                      (map (map (map f32)) picked)).
  { apply Forall_map. apply Forall_forall. intros frame Hin.
    apply Forall_map. apply Forall_forall. intros j Hjin.
    rewrite length_map.
    assert (Hfr : In frame (rows kpts_2d)).
    { clear -Hp Hin. induction Hp as [|id x ids picked Hx _ IH];
        [destruct Hin|].
      destruct Hin as [<-|Hin]; [eapply nth_error_In; eauto | auto]. }
    unfold well_shaped in Hw. rewrite Forall_forall in Hw.
    destruct (Hw frame Hfr) as [_ Hjs]. rewrite Forall_forall in Hjs.
    specialize (Hjs j Hjin). unfold Py.len in Hjs. lia. }
  destruct (frames_split _ Hj) as (vis & -> & Hr). simpl.
  exists picked, vis. auto.
Qed.

End LoadAnnotationsFacts.

Lemma Forall2_total {A B} (P : A -> Prop) (R : A -> B -> Prop) xs :
  (forall x, P x -> exists y, R x y) ->
  Forall P xs -> exists ys, Forall2 R xs ys.
Proof.
  intros HR H. induction H as [|x xs Hx _ [ys IH]].
  - exists []. constructor.
  - destruct (HR x Hx) as [y Hy]. exists (y :: ys). now constructor.
Qed.

(** The frame indices of the emitted sequences are rows of the table. *)
Lemma emitted_indices_in_range cfg imgnames draw seqs :
  1 <= seq_step cfg ->
  get_sequence_indices cfg imgnames draw = Ok seqs ->
  Forall (Forall (fun idx => 0 <= idx < Py.len imgnames)) seqs.
Proof.
  intros Hs H. unfold get_sequence_indices in H.
  destruct (build_sequence_indices cfg imgnames) as [all|] eqn:Eb;
    simpl in H; [|discriminate].
  apply build_within in Eb; [|exact Hs].
  apply take_subset_incl in H.
  apply Forall_forall. intros s Hin. apply H in Hin.
  rewrite Forall_forall in Eb. destruct (Eb s Hin) as [_ [key Hk]].
  eapply Forall_impl; [|exact Hk].
  intros idx [H0 (name & Hn & _)]. split; [exact H0|].
  assert (Hlt : (Z.to_nat idx < List.length imgnames)%nat)
    by (apply nth_error_Some; congruence).
  unfold Py.len. lia.
Qed.

Section LoadAnnotationsResults.

Context {V Fr O Img B : Type}.
Variable f32 : V -> V.
Variable f32_row : Fr -> Fr.
Variable exists_ : string -> bool.
Variable np_load_kpts : string -> result (ndarray3 V).
Variable np_load_factors : string -> result (list Fr).

Lemma load_detection_ok (self : dataset B) seqs n_3d
    (insts : list (instance V Fr O)) (imgs : list Img) det_file kpts_2d :
  self_keypoint_2d_src self = "detection"%string ->
  self_keypoint_2d_det_file self = Some det_file ->
  truthy (self_factor_file self) = None ->
  exists_ det_file = true ->
  _load_keypoint_2d_detection V f32 np_load_kpts det_file = Ok kpts_2d ->
  Py.len (rows kpts_2d) = n_3d -> shape2 kpts_2d = 3 ->
  well_shaped kpts_2d ->
  List.length insts = List.length seqs ->
  Forall (Forall (fun id => 0 <= id < n_3d)) seqs ->
  exists insts',
    _load_annotations V f32 Fr f32_row O Img exists_ np_load_kpts
      np_load_factors self seqs (Some n_3d) (Ok (insts, imgs))
    = inr (insts', imgs) /\
    List.length insts' = List.length insts /\
    forall i ids inst,
      nth_error seqs i = Some ids -> nth_error insts i = Some inst ->
      exists inst',
        nth_error insts' i = Some inst' /\
        filled_from_detection f32 kpts_2d ids inst inst'.
Proof.
  intros Hsrc Hdet Hfac Hex Hload Hn H3 Hw Hlen Hids.
  destruct (Forall2_total
              (Forall (fun id => 0 <= id < n_3d))
              (fun ids new =>
                 detection_fields V f32 Fr O kpts_2d ids = Ok new /\
                 forall inst,
                   filled_from_detection f32 kpts_2d ids inst (dict_update inst new))
              seqs) as [news Hnews]; [|exact Hids|].
  { intros ids Hin. rewrite <- Hn in Hin.
    destruct (detection_fields_ok (Fr := Fr) (O := O) f32 kpts_2d ids H3 Hw Hin)
      as (picked & vis & Hp & E & Hr).
    eexists. split; [exact E|]. intros inst.
    exists picked, (map (map (firstn 2)) (map (map (map f32)) picked)), vis.
    repeat split; auto. }
  assert (Hf : Forall2 (fun ids new =>
                          detection_fields V f32 Fr O kpts_2d ids = Ok new)
                       seqs news)
    by (eapply Forall2_impl; [|exact Hnews]; intros ? ? [? _]; assumption).
  destruct (update_instances_spec _ seqs news Hf 0%nat insts)
    as (insts' & E & Hl & _ & Hnew); [simpl; lia|].
  exists insts'. split; [|split; [exact Hl|]].
  - unfold _load_annotations, load_detection.
    rewrite Hsrc, Hdet, Hex, Hload, Hn, Z.eqb_refl, H3. simpl.
    rewrite E. simpl. now rewrite Hfac.
  - intros i ids inst Hi Hinst.
    destruct (Forall2_nth_l _ _ _ _ _ Hnews Hi) as (new & Hnew_i & _ & Hfill).
    exists (dict_update inst new). split; [|apply Hfill].
    apply (Hnew i new inst Hnew_i Hinst).
Qed.

(** X15.  In detection mode, with an [N x K x 3] detection array that has as
    many rows as the annotations, [_load_annotations] gives every instance
    the detections of the frames of its sequence: [keypoints] holds the
    first two values of every joint and [keypoints_visible] the third, so
    that putting them together again gives the selected rows of the
    detection array (cast to float32); no instance is added or removed. *)
Theorem detection_splits_keypoints_and_visibility (self : dataset B) seqs n_3d
    (insts : list (instance V Fr O)) (imgs : list Img) det_file kpts_2d :
  self_keypoint_2d_src self = "detection"%string ->
  self_keypoint_2d_det_file self = Some det_file ->
  truthy (self_factor_file self) = None ->
  exists_ det_file = true ->
  _load_keypoint_2d_detection V f32 np_load_kpts det_file = Ok kpts_2d ->
  Py.len (rows kpts_2d) = n_3d -> shape2 kpts_2d = 3 ->
  well_shaped kpts_2d ->
  List.length insts = List.length seqs ->
  Forall (Forall (fun id => 0 <= id < n_3d)) seqs ->
  exists insts',
    _load_annotations V f32 Fr f32_row O Img exists_ np_load_kpts
      np_load_factors self seqs (Some n_3d) (Ok (insts, imgs))
    = inr (insts', imgs) /\
    List.length insts' = List.length insts /\
    forall i ids inst,
      nth_error seqs i = Some ids -> nth_error insts i = Some inst ->
      exists inst' picked kp vis,
        nth_error insts' i = Some inst' /\
        Forall2 (fun id frame =>
                   nth_error (rows kpts_2d) (Z.to_nat id) = Some frame)
                ids picked /\
        dict_lookup inst' "keypoints" = Some (Keypoints kp) /\
        dict_lookup inst' "keypoints_visible" = Some (KeypointsVisible vis) /\
        rejoin kp vis = map (map (map f32)) picked /\
        (forall k, k <> "keypoints"%string -> k <> "keypoints_visible"%string ->
                   dict_lookup inst' k = dict_lookup inst k).
Proof.
  intros Hsrc Hdet Hfac Hex Hload Hn H3 Hw Hlen Hids.
  destruct (load_detection_ok self seqs n_3d insts imgs det_file kpts_2d)
    as (insts' & E & Hl & Hfill); auto.
  exists insts'. split; [exact E|]. split; [exact Hl|].
  intros i ids inst Hi Hinst.
  destruct (Hfill i ids inst Hi Hinst)
    as (inst' & Hi' & picked & kp & vis & Hp & -> & Hkp & Hr).
  exists (dict_update inst [("keypoints", Keypoints kp);
                            ("keypoints_visible", KeypointsVisible vis)]%string),
         picked, kp, vis.
  split; [exact Hi'|]. split; [exact Hp|].
  unfold dict_update. simpl.
  rewrite !Mae2mmclsFacts.dict_lookup_set. simpl.
  repeat split; auto.
  intros k Hk1 Hk2.
  rewrite !Mae2mmclsFacts.dict_lookup_set.
  destruct (String.eqb_spec "keypoints_visible" k) as [<-|_]; [congruence|].
  destruct (String.eqb_spec "keypoints" k) as [<-|_]; [congruence|].
  reflexivity.
Qed.

(** X16.  The sequences that [get_sequence_indices] emits for a table only
    name rows of that table, so with a detection array that has one row per
    annotated frame the lookups of [_load_annotations] never leave the
    array: loading succeeds. *)
Theorem detection_lookups_stay_in_range cfg imgnames draw (self : dataset B)
    seqs (insts : list (instance V Fr O)) (imgs : list Img) det_file kpts_2d :
  1 <= seq_step cfg ->
  get_sequence_indices cfg imgnames draw = Ok seqs ->
  self_keypoint_2d_src self = "detection"%string ->
  self_keypoint_2d_det_file self = Some det_file ->
  truthy (self_factor_file self) = None ->
  exists_ det_file = true ->
  _load_keypoint_2d_detection V f32 np_load_kpts det_file = Ok kpts_2d ->
  Py.len (rows kpts_2d) = Py.len imgnames -> shape2 kpts_2d = 3 ->
  well_shaped kpts_2d ->
  List.length insts = List.length seqs ->
  exists insts',
    _load_annotations V f32 Fr f32_row O Img exists_ np_load_kpts
      np_load_factors self seqs (Some (Py.len imgnames)) (Ok (insts, imgs))
    = inr (insts', imgs) /\
    List.length insts' = List.length seqs.
Proof.
  intros Hs Hseqs Hsrc Hdet Hfac Hex Hload Hn H3 Hw Hlen.
  pose proof (emitted_indices_in_range cfg imgnames draw seqs Hs Hseqs) as Hr.
  destruct (load_detection_ok self seqs (Py.len imgnames) insts imgs det_file
              kpts_2d) as (insts' & E & Hl & _); auto.
  exists insts'. split; [exact E | congruence].
Qed.

End LoadAnnotationsResults.

Lemma detection_splits_keypoints_and_visibility_witness :
  exists insts',
    _load_annotations Z (fun x => x) Z (fun x => x) unit unit
      (fun _ => true)
      (fun _ => Ok {| rows := [[[1; 2; 3]]; [[4; 5; 6]]];
                      shape1 := 1; shape2 := 3 |})
      (fun _ => Err KeyError)
      {| self_keypoint_2d_src := "detection";
         self_keypoint_2d_det_file := Some "det.npy"%string;
         self_seq_step := 1; self_pad_video_seq := false;
         self_factor_file := None; base := tt |}
      [[1]; [0]] (Some 2) (Ok ([[]; []], []))
    = inr (insts', []) /\
    List.length insts' = 2%nat.
Proof.
  destruct (detection_splits_keypoints_and_visibility
              (V := Z) (Fr := Z) (O := unit) (Img := unit) (B := unit)
              (fun x => x) (fun x => x) (fun _ => true)
              (fun _ => Ok {| rows := [[[1; 2; 3]]; [[4; 5; 6]]];
                              shape1 := 1; shape2 := 3 |})
              (fun _ => Err KeyError)
              {| self_keypoint_2d_src := "detection";
                 self_keypoint_2d_det_file := Some "det.npy"%string;
                 self_seq_step := 1; self_pad_video_seq := false;
                 self_factor_file := None; base := tt |}
              [[1]; [0]] 2 [[]; []] [] "det.npy"%string
              {| rows := [[[1; 2; 3]]; [[4; 5; 6]]];
                 shape1 := 1; shape2 := 3 |})
    as (insts' & E & Hl & _); try reflexivity.
  - repeat (constructor; try (unfold Py.len; simpl; lia)).
  - repeat (constructor; try (unfold Py.len; simpl; lia)).
  - exists insts'. split; [exact E | exact Hl].
Defined.

Lemma detection_lookups_stay_in_range_witness :
  exists insts',
    _load_annotations Z (fun x => x) Z (fun x => x) unit unit
      (fun _ => true)
      (fun _ => Ok {| rows := [[[1; 2; 3]]; [[4; 5; 6]]];
                      shape1 := 1; shape2 := 3 |})
      (fun _ => Err KeyError)
      {| self_keypoint_2d_src := "detection";
         self_keypoint_2d_det_file := Some "det.npy"%string;
         self_seq_step := 1; self_pad_video_seq := false;
         self_factor_file := None; base := tt |}
      [[0]; [1]] (Some 2) (Ok ([[]; []], []))
    = inr (insts', []) /\
    List.length insts' = 2%nat.
Proof.
  apply (detection_lookups_stay_in_range
           (V := Z) (Fr := Z) (O := unit) (Img := unit) (B := unit)
           (fun x => x) (fun x => x) (fun _ => true)
           (fun _ => Ok {| rows := [[[1; 2; 3]]; [[4; 5; 6]]];
                           shape1 := 1; shape2 := 3 |})
           (fun _ => Err KeyError)
           default_config (video "S1_Walk.1" 2) 0
           {| self_keypoint_2d_src := "detection";
              self_keypoint_2d_det_file := Some "det.npy"%string;
              self_seq_step := 1; self_pad_video_seq := false;
              self_factor_file := None; base := tt |}
           [[0]; [1]] [[]; []] [] "det.npy"%string
           {| rows := [[[1; 2; 3]]; [[4; 5; 6]]];
              shape1 := 1; shape2 := 3 |});
    try reflexivity.
  repeat (constructor; try (unfold Py.len; simpl; lia)).
Defined.

Section FactorFile.

Context {V Fr O Img B : Type}.
Variable f32 : V -> V.
Variable f32_row : Fr -> Fr.
Variable exists_ : string -> bool.
Variable np_load_kpts : string -> result (ndarray3 V).
Variable np_load_factors : string -> result (list Fr).

(** X17.  Outside detection mode, with a factor file that has one row per
    annotated frame, [_load_annotations] stores in every instance, under
    ['factor'], the rows of the factor array (cast to float32 after loading)
    at the frame indices of its sequence, cast once more; the other fields
    of the instance are left as the base class set them. *)
Theorem factor_file_fills_factor (self : dataset B) seqs n_3d
    (insts : list (instance V Fr O)) (imgs : list Img) factor_file loaded :
  String.eqb (self_keypoint_2d_src self) "detection" = false ->
  truthy (self_factor_file self) = Some factor_file ->
  np_load_factors factor_file = Ok loaded ->
  Py.len loaded = n_3d ->
  List.length insts = List.length seqs ->
  Forall (Forall (fun id => 0 <= id < n_3d)) seqs ->
  exists insts',
    _load_annotations V f32 Fr f32_row O Img exists_ np_load_kpts
      np_load_factors self seqs (Some n_3d) (Ok (insts, imgs))
    = inr (insts', imgs) /\
    List.length insts' = List.length insts /\
    forall i ids inst,
      nth_error seqs i = Some ids -> nth_error insts i = Some inst ->
      exists inst' picked,
        nth_error insts' i = Some inst' /\
        Forall2 (fun id row =>
                   nth_error (map f32_row loaded) (Z.to_nat id) = Some row)
                ids picked /\
        dict_lookup inst' "factor" = Some (Factor (map f32_row picked)) /\
        (forall k, k <> "factor"%string ->
                   dict_lookup inst' k = dict_lookup inst k).
Proof.
  intros Hsrc Hfac Hload Hn Hlen Hids.
  set (factors := map f32_row loaded).
  assert (Hnf : Py.len factors = n_3d)
    by (unfold factors, Py.len in *; now rewrite length_map).
  destruct (Forall2_total
              (Forall (fun id => 0 <= id < n_3d))
              (fun ids new =>
                 factor_fields V Fr f32_row O factors ids = Ok new /\
                 exists picked,
                   Forall2 (fun id row =>
                              nth_error factors (Z.to_nat id) = Some row)
                           ids picked /\
                   new = [("factor"%string, Factor (map f32_row picked))])
              seqs) as [news Hnews]; [|exact Hids|].
  { intros ids Hin. rewrite <- Hnf in Hin.
    destruct (mapM_getitem factors ids Hin) as (picked & E & Hp).
    eexists. split.
    - unfold factor_fields. rewrite E. simpl. reflexivity.
    - now exists picked. }
  assert (Hf : Forall2 (fun ids new =>
                          factor_fields V Fr f32_row O factors ids = Ok new)
                       seqs news)
    by (eapply Forall2_impl; [|exact Hnews]; intros ? ? [? _]; assumption).
  destruct (update_instances_spec _ seqs news Hf 0%nat insts)
    as (insts' & E & Hl & _ & Hnew); [simpl; lia|].
  exists insts'. split; [|split; [exact Hl|]].
  - unfold _load_annotations, load_factors.
    rewrite Hsrc, Hfac, Hload. fold factors.
    rewrite Hnf, Z.eqb_refl. simpl. now rewrite E.
  - intros i ids inst Hi Hinst.
    destruct (Forall2_nth_l _ _ _ _ _ Hnews Hi)
      as (new & Hnew_i & _ & picked & Hp & ->).
    exists (dict_update inst [("factor"%string, Factor (map f32_row picked))]),
           picked.
    split; [apply (Hnew i _ inst Hnew_i Hinst)|]. split; [exact Hp|].
    unfold dict_update. simpl.
    rewrite Mae2mmclsFacts.dict_lookup_set. simpl. split; [reflexivity|].
    intros k Hk. rewrite Mae2mmclsFacts.dict_lookup_set.
    destruct (String.eqb_spec "factor" k) as [<-|_]; [congruence|].
    reflexivity.
Qed.

End FactorFile.

Lemma factor_file_fills_factor_witness :
  exists insts',
    _load_annotations Z (fun x => x) Z (fun x => x) unit unit
      (fun _ => true) (fun _ => Err KeyError) (fun _ => Ok [7; 8; 9])
      {| self_keypoint_2d_src := "gt";
         self_keypoint_2d_det_file := None;
         self_seq_step := 1; self_pad_video_seq := false;
         self_factor_file := Some "factor.npy"%string; base := tt |}
      [[2; 0]] (Some 3) (Ok ([[]], []))
    = inr (insts', []) /\
    List.length insts' = 1%nat.
Proof.
  destruct (factor_file_fills_factor
              (V := Z) (Fr := Z) (O := unit) (Img := unit) (B := unit)
              (fun x => x) (fun x => x) (fun _ => true)
              (fun _ => Err KeyError) (fun _ => Ok [7; 8; 9])
              {| self_keypoint_2d_src := "gt";
                 self_keypoint_2d_det_file := None;
                 self_seq_step := 1; self_pad_video_seq := false;
                 self_factor_file := Some "factor.npy"%string; base := tt |}
              [[2; 0]] 3 [[]] [] "factor.npy"%string [7; 8; 9])
    as (insts' & E & Hl & _); try reflexivity.
  - repeat (constructor; try (unfold Py.len; simpl; lia)).
  - exists insts'. split; [exact E | exact Hl].
Defined.

(** * More unvalidated configurations *)




(** * More on the constructor *)

(** X19.  A factor file that does not exist is rejected by the constructor
    itself, with the [AssertionError] of line 151, before the base-class
    constructor runs, so before any annotation is loaded; whether or not a
    detection file is given does not matter, as long as its path can be
    formed. *)
Theorem missing_factor_file_is_rejected_eagerly
    (is_abs exists_ : string -> bool) (B : Type)
    (base_init : init_args -> option string -> result B) (args : init_args)
    (f r : string) :
  In (keypoint_2d_src args) ["gt"; "detection"; "pipeline"]%string ->
  (forall g, truthy (keypoint_2d_det_file args) = Some g ->
             exists rg, resolve is_abs (data_root args) g = Ok rg) ->
  truthy (factor_file args) = Some f ->
  resolve is_abs (data_root args) f = Ok r ->
  exists_ r = false ->
  __init__ is_abs exists_ B base_init args = inl (Raised AssertionError).
Proof.
  intros Hin Hdet Hfac Hres Hex. unfold __init__.
  apply str_in_In in Hin. fold SUPPORTED_keypoint_2d_src in Hin.
  rewrite Hin. simpl negb. cbv iota.
  destruct (truthy (keypoint_2d_det_file args)) as [g|].
  - destruct (Hdet g eq_refl) as [rg ->]. simpl.
    rewrite Hfac, Hres. simpl. now rewrite Hex.
  - simpl. rewrite Hfac, Hres. simpl. now rewrite Hex.
Qed.

Lemma missing_factor_file_is_rejected_eagerly_witness :
  __init__ (fun _ => false) (fun _ => false) unit (fun _ _ => Ok tt)
    {| arg_cfg := default_config; keypoint_2d_src := "gt";
       keypoint_2d_det_file := None; factor_file := Some "factor.npy"%string;
       data_root := Some "data"%string |}
  = inl (Raised AssertionError).
Proof.
  apply (missing_factor_file_is_rejected_eagerly
           (fun _ => false) (fun _ => false) unit (fun _ _ => Ok tt)
           {| arg_cfg := default_config; keypoint_2d_src := "gt";
              keypoint_2d_det_file := None;
              factor_file := Some "factor.npy"%string;
              data_root := Some "data"%string |}
           "factor.npy"%string "data/factor.npy"%string);
    try reflexivity.
  - simpl. now left.
  - intros g Hg. discriminate Hg.
Defined.

(** X20.  A dataset that [__init__] returns has a supported
    [keypoint_2d_src], carries the [seq_step] and [pad_video_seq] it was
    given, and, when it has a factor file, names one that exists: the path
    given if [is_abs] accepts it, else that path joined to [data_root]. *)
Theorem constructed_dataset_is_checked
    (is_abs exists_ : string -> bool) (B : Type)
    (base_init : init_args -> option string -> result B) (args : init_args)
    (d : dataset B) :
  __init__ is_abs exists_ B base_init args = inr d ->
  In (self_keypoint_2d_src d) ["gt"; "detection"; "pipeline"]%string /\
  self_seq_step d = seq_step (arg_cfg args) /\
  self_pad_video_seq d = pad_video_seq (arg_cfg args) /\
  (forall r, truthy (self_factor_file d) = Some r ->
             exists_ r = true /\
             exists f, truthy (factor_file args) = Some f /\
                       resolve is_abs (data_root args) f = Ok r).
Proof.
  unfold __init__. intros H.
  destruct (str_in (keypoint_2d_src args) SUPPORTED_keypoint_2d_src) eqn:Es;
    simpl in H; [|discriminate].
  apply str_in_In in Es.
  destruct (lift_own _) as [e1|det] in H; [discriminate|].
  destruct (truthy (factor_file args)) as [f|] eqn:Ef; simpl in H.
  - destruct (resolve is_abs (data_root args) f) as [r|e] eqn:Er;
      simpl in H; [|discriminate].
    destruct (exists_ r) eqn:Ex; simpl in H; [|discriminate].
    destruct (base_init args (Some r)); [|discriminate].
    injection H as <-. simpl.
    split; [exact Es|]. split; [reflexivity|]. split; [reflexivity|].
    intros r0 Hr0.
    assert (r0 = r) by (destruct r; simpl in Hr0; [discriminate | congruence]).
    subst r0. split; [exact Ex|]. exists f. split; [reflexivity | exact Er].
  - destruct (base_init args (factor_file args)); [|discriminate].
    injection H as <-. simpl.
    split; [exact Es|]. split; [reflexivity|]. split; [reflexivity|].
    intros r0 Hr0. rewrite Hr0 in Ef. discriminate.
Qed.

Lemma constructed_dataset_is_checked_witness :
  In "detection"%string ["gt"; "detection"; "pipeline"]%string /\
  1 = 1 /\ false = false /\
  (forall r, truthy (Some "data/factor.npy"%string) = Some r ->
             (fun _ : string => true) r = true /\
             exists f, truthy (Some "factor.npy"%string) = Some f /\
                       resolve (fun _ => false) (Some "data"%string) f = Ok r).
Proof.
  apply (constructed_dataset_is_checked
           (fun _ => false) (fun _ => true) unit (fun _ _ => Ok tt)
           {| arg_cfg := default_config; keypoint_2d_src := "detection";
              keypoint_2d_det_file := Some "det.npy"%string;
              factor_file := Some "factor.npy"%string;
              data_root := Some "data"%string |}
           {| self_keypoint_2d_src := "detection";
              self_keypoint_2d_det_file := Some "data/det.npy"%string;
              self_seq_step := 1; self_pad_video_seq := false;
              self_factor_file := Some "data/factor.npy"%string;
              base := tt |}).
  reflexivity.
Defined.
